(** * Formant model of the vowel synthesizer ([VowelSynthesizerCore])

    Shallow embedding of the numeric core of [VowelSynthesizerCore] in
    [astro.config.mjs]: the vowel catalog [VOWELS], [interpolateFormants],
    [scaleFormantsForGender], [calculateBandwidth], [updateVowel], and the
    setters [setPitch] and [setVolume], together with the part of
    [start] that builds the audio graph.

    JavaScript numbers are abstracted by the class [JSNum]: the code is
    written once over it and instantiated twice,
    - with Rocq's primitive binary64 floats ([PrimFloat]), which are exactly
      the IEEE-754 doubles of JavaScript, evaluated by [vm_compute];
    - with the real numbers [R], the exact-arithmetic reading of the same
      code, used for statements quantified over all inputs. *)

From Stdlib Require Import ZArith List String Reals Lra Lia Psatz PrimFloat.
Import ListNotations.

(** ** JavaScript numbers *)

Class JSNum (T : Type) := {
  jzero : T;
  jadd : T -> T -> T;
  jsub : T -> T -> T;
  jmul : T -> T -> T;
  jdiv : T -> T -> T;
  jsqrt : T -> T;                 (* Math.sqrt *)
  jleb : T -> T -> bool;          (* a <= b *)
  jltb : T -> T -> bool;          (* a < b *)
  jof_pos : positive -> T         (* an integer literal (exact below 2^53) *)
}.

Declare Scope js_scope.
Delimit Scope js_scope with js.
Infix "+" := jadd : js_scope.
Infix "-" := jsub : js_scope.
Infix "*" := jmul : js_scope.
Infix "/" := jdiv : js_scope.
Infix "<=?" := jleb : js_scope.
Infix "<?" := jltb : js_scope.

(** The decimal literal [m * 10^-k]; for doubles, the quotient of two exact
    integers is correctly rounded, hence it is the double the JavaScript
    parser gives for the same literal. *)
Definition lit {T} `{JSNum T} (m : positive) (k : nat) : T :=
  jdiv (jof_pos m) (jof_pos (Nat.iter k (Pos.mul 10) 1%positive)).

(** Integer literals [n]. *)
Definition num {T} `{JSNum T} (m : positive) : T := jof_pos m.

(** *** Instance 1: binary64, as in a JavaScript engine *)

Fixpoint pos_to_float (p : positive) : float :=
  match p with
  | xH => 1%float
  | xO q => (2 * pos_to_float q)%float
  | xI q => (2 * pos_to_float q + 1)%float
  end.

#[export] Instance JSNum_float : JSNum float := {
  jzero := 0%float;
  jadd := PrimFloat.add;
  jsub := PrimFloat.sub;
  jmul := PrimFloat.mul;
  jdiv := PrimFloat.div;
  jsqrt := PrimFloat.sqrt;
  jleb := PrimFloat.leb;
  jltb := PrimFloat.ltb;
  jof_pos := pos_to_float
}.

(** *** Instance 2: exact real arithmetic *)

Definition Rleb (a b : R) : bool := if Rle_dec a b then true else false.
Definition Rltb (a b : R) : bool := if Rlt_dec a b then true else false.

#[export] Instance JSNum_R : JSNum R := {
  jzero := 0%R;
  jadd := Rplus;
  jsub := Rminus;
  jmul := Rmult;
  jdiv := Rdiv;
  jsqrt := R_sqrt.sqrt;
  jleb := Rleb;
  jltb := Rltb;
  jof_pos := fun p => IZR (Zpos p)
}.

(** ** The synthesizer core *)

Section Core.
Context {T : Type} `{JSNum T}.
Local Open Scope js_scope.
Local Notation "0" := jzero : js_scope.
Local Notation "1" := (num 1) : js_scope.

(** A catalog entry: [{ formants: [F1, F2, F3], pos: [x, y] }]. *)
Record VowelData := mkVowelData { formants : list T; pos : list T }.

(** [const VOWELS = { 'i': ..., ... }], in the iteration order of
    [Object.entries] (insertion order: no key is an array index). *)
Definition VOWELS : list (string * VowelData) := [
  ("i"%string,  mkVowelData [num 270; num 2290; num 3010] [lit 9 1; lit 9 1]);
  ("I"%string,  mkVowelData [num 390; num 1990; num 2550] [lit 85 2; lit 75 2]);
  ("e"%string,  mkVowelData [num 530; num 1840; num 2480] [lit 8 1; lit 6 1]);
  ("ɛ"%string,  mkVowelData [num 660; num 1720; num 2410] [lit 7 1; lit 4 1]);
  ("æ"%string,  mkVowelData [num 860; num 1550; num 2410] [lit 7 1; lit 2 1]);
  ("ə"%string,  mkVowelData [num 490; num 1350; num 1690] [lit 5 1; lit 5 1]);
  ("ɑ"%string,  mkVowelData [num 730; num 1090; num 2440] [lit 4 1; lit 15 2]);
  ("ɔ"%string,  mkVowelData [num 570; num 840;  num 2410] [lit 3 1; lit 35 2]);
  ("o"%string,  mkVowelData [num 450; num 870;  num 2410] [lit 2 1; lit 55 2]);
  ("u"%string,  mkVowelData [num 300; num 870;  num 2240] [lit 1 1; lit 9 1]);
  ("ʊ"%string,  mkVowelData [num 440; num 1020; num 2240] [lit 15 2; lit 75 2])
].

(** The objects [{ name, data, dist }] pushed into [distances]. *)
Record Entry := mkEntry { name : string; data : VowelData; dist : T }.

(** [nearest[j]] out of range is [undefined] in JavaScript (and the next
    property access throws); [nearest] always has 3 entries, so this
    default is never read. *)
Definition undefinedEntry : Entry := mkEntry EmptyString (mkVowelData [] []) 0.

(** The loop [for (const [name, data] of Object.entries(VOWELS))]. *)
Definition distances (x y : T) : list Entry :=
  map (fun '(nm, d) =>
         let dx := nth 0 (pos d) 0 - x in
         let dy := nth 1 (pos d) 0 - y in
         mkEntry nm d (jsqrt (dx * dx + dy * dy)))
      VOWELS.

(** The comparator [(a, b) => a.dist - b.dist]. *)
Definition compareDist (a b : Entry) : T := dist a - dist b.

(** [Array.prototype.sort] is stable (ECMAScript 2019): an element stays in
    front of a later one whenever the comparator is [<= 0] on them.  For a
    consistent comparator this fixes the result, which is the one of the
    following stable insertion sort. *)
Fixpoint insertSorted (a : Entry) (l : list Entry) : list Entry :=
  match l with
  | [] => [a]
  | b :: r => if compareDist a b <=? 0 then a :: b :: r else b :: insertSorted a r
  end.

Fixpoint sortByDist (l : list Entry) : list Entry :=
  match l with
  | [] => []
  | a :: r => insertSorted a (sortByDist r)
  end.

(** [distances.sort(...); const nearest = distances.slice(0, 3);] *)
Definition nearestOf (x y : T) : list Entry := firstn 3 (sortByDist (distances x y)).

(** [const weights = nearest.map(v => 1.0 / (v.dist + 0.01))], with
    [totalWeight] accumulated left to right from [0]. *)
Definition weightsOf (nearest : list Entry) : list T :=
  map (fun v => 1 / (dist v + lit 1 2)) nearest.

Definition totalWeightOf (weights : list T) : T := fold_left jadd weights 0.

Definition normalizedWeightsOf (weights : list T) : list T :=
  let totalWeight := totalWeightOf weights in
  map (fun w => w / totalWeight) weights.

(** [for (i < 3) for (j < 3) formants[i] += nearest[j].data.formants[i] * normalizedWeights[j]] *)
Definition blend (nearest : list Entry) (normalizedWeights : list T) : list T :=
  map (fun i =>
         fold_left (fun acc j =>
                      acc + nth i (formants (data (nth j nearest undefinedEntry))) 0
                            * nth j normalizedWeights 0)
                   (seq 0 3) 0)
      (seq 0 3).

Definition interpolateFormants (x y : T) : list T :=
  let nearest := nearestOf x y in
  blend nearest (normalizedWeightsOf (weightsOf nearest)).

Definition genderScale (genderFactor : T) : T :=
  if genderFactor <=? 1 then 1 + lit 18 2 * genderFactor
  else lit 118 2 + lit 25 2 * (genderFactor - 1).

Definition scaleFormantsForGender (fs : list T) (genderFactor : T) : list T :=
  let scale := genderScale genderFactor in
  map (fun f => f * scale) fs.

Definition bandwidthMult (qualityFactor : T) : T :=
  if 0 <=? qualityFactor then 1 + lit 5 1 * qualityFactor
  else 1 + lit 3 1 * qualityFactor.

Definition calculateBandwidth (formantFreq qualityFactor : T) : T :=
  let baseBW := formantFreq * lit 8 2 in
  let mult := bandwidthMult qualityFactor in
  baseBW * mult.

End Core.

(** ** The stateful core: fields of [VowelSynthesizerCore] and its audio graph *)

Section State.
Context {T : Type} `{JSNum T}.
Local Open Scope js_scope.
Local Notation "0" := jzero : js_scope.
Local Notation "1" := (num 1) : js_scope.

(** The host side: the audio parameters the core writes into.  A call
    [param.setTargetAtTime(v, now, 0.02)] or [param.setValueAtTime(v, now)]
    is modelled by the value [v] it sets as the parameter's target. *)
Record AudioGraph := mkAudioGraph {
  oscillatorFrequency : T;        (* oscillator.frequency *)
  filterParams : list (T * T);    (* (filters[i].frequency, filters[i].Q) *)
  masterGainValue : T             (* masterGain.gain *)
}.

(** The fields of the class.  [graph] is [None] while [audioContext] (and
    with it [oscillator], [filters] and [masterGain]) is [null]. *)
Record Core := mkCore {
  isRunning : bool;
  graph : option AudioGraph;
  vowelX : T;
  vowelY : T;
  genderFactor : T;
  qualityFactor : T;
  volume : T
}.

(** [new VowelSynthesizerCore()] *)
Definition initCore : Core :=
  mkCore false None (lit 5 1) (lit 5 1) 0 0 (num 25).

Definition withGraph (c : Core) (g : AudioGraph) : Core :=
  mkCore (isRunning c) (Some g) (vowelX c) (vowelY c) (genderFactor c)
         (qualityFactor c) (volume c).

(** The body of [updateVowel] after its guard: the three (frequency, Q)
    targets given to the filters. *)
Definition recompute (c : Core) : list (T * T) :=
  let formants := interpolateFormants (vowelX c) (vowelY c) in
  let formants := scaleFormantsForGender formants (genderFactor c) in
  map (fun i =>
         let freq := nth i formants 0 in
         let bw := calculateBandwidth freq (qualityFactor c) in
         let Q := freq / bw in
         (freq, Q))
      (seq 0 3).

Definition updateVowel (c : Core) : Core :=
  if isRunning c then
    match graph c with
    | Some g =>
        withGraph c (mkAudioGraph (oscillatorFrequency g) (recompute c)
                                  (masterGainValue g))
    | None => c
    end
  else c.

(** [start()] on an audio device that initialises: a sawtooth at 120 Hz,
    three band-pass filters at the Web Audio defaults (frequency 350) with
    [Q = 5.0], a master gain at [this.volume]; then [updateVowel()].  The
    [catch] branch (no audio device) is outside the model. *)
Definition start (c : Core) : Core :=
  if isRunning c then c
  else
    updateVowel
      (mkCore true
              (Some (mkAudioGraph (num 120)
                                  [(num 350, lit 50 1); (num 350, lit 50 1); (num 350, lit 50 1)]
                                  (volume c)))
              (vowelX c) (vowelY c) (genderFactor c) (qualityFactor c) (volume c)).

(** [stop()]: the context is closed but the fields keep their handles. *)
Definition stop (c : Core) : Core :=
  if isRunning c then
    mkCore false (graph c) (vowelX c) (vowelY c) (genderFactor c)
           (qualityFactor c) (volume c)
  else c.

Definition setPitch (f0 : T) (c : Core) : Core :=
  if isRunning c then
    match graph c with
    | Some g => withGraph c (mkAudioGraph f0 (filterParams g) (masterGainValue g))
    | None => c
    end
  else c.

Definition setVowelPosition (x y : T) (c : Core) : Core :=
  updateVowel (mkCore (isRunning c) (graph c) x y (genderFactor c)
                      (qualityFactor c) (volume c)).

Definition setGender (factor : T) (c : Core) : Core :=
  updateVowel (mkCore (isRunning c) (graph c) (vowelX c) (vowelY c) factor
                      (qualityFactor c) (volume c)).

Definition setQuality (factor : T) (c : Core) : Core :=
  updateVowel (mkCore (isRunning c) (graph c) (vowelX c) (vowelY c)
                      (genderFactor c) factor (volume c)).

Definition setVolume (vol : T) (c : Core) : Core :=
  let c := mkCore (isRunning c) (graph c) (vowelX c) (vowelY c)
                  (genderFactor c) (qualityFactor c) vol in
  if isRunning c then
    match graph c with
    | Some g => withGraph c (mkAudioGraph (oscillatorFrequency g) (filterParams g) vol)
    | None => c
    end
  else c.

End State.

(** ** Reference reading of the interpolation, following the spec's words

    "compute the Euclidean distance from (x,y) to each of the 11 anchors;
    select the 3 anchors with smallest distance (ties broken by catalog
    iteration order); weight each by [1 / (distance + 0.01)]; normalize the
    3 weights to sum to 1; output each band as the weight-normalized sum". *)

Section Reference.
Context {T : Type} `{JSNum T}.
Local Open Scope js_scope.
Local Notation "0" := jzero : js_scope.
Local Notation "1" := (num 1) : js_scope.

Definition euclideanDistance (p : list T) (x y : T) : T :=
  let px := nth 0 p 0 in
  let py := nth 1 p 0 in
  jsqrt ((px - x) * (px - x) + (py - y) * (py - y)).

Definition anchorsWithDistance (x y : T) : list Entry :=
  map (fun '(nm, d) => mkEntry nm d (euclideanDistance (pos d) x y)) VOWELS.

(** The first anchor of [a :: l] with the smallest distance (earliest in
    catalog order among equals), and the others in their order. *)
Fixpoint extractClosest (a : Entry) (l : list Entry) : Entry * list Entry :=
  match l with
  | [] => (a, [])
  | b :: r =>
      let '(m, rest) := extractClosest b r in
      if dist a <=? dist m then (a, b :: r) else (m, a :: rest)
  end.

Fixpoint selectClosest (k : nat) (l : list Entry) : list Entry :=
  match k, l with
  | O, _ => []
  | _, [] => []
  | S k', a :: r =>
      let '(m, rest) := extractClosest a r in m :: selectClosest k' rest
  end.

Definition sumList (l : list T) : T := fold_right jadd 0 l.

Definition interpolateFormantsSpec (x y : T) : list T :=
  let selected := selectClosest 3 (anchorsWithDistance x y) in
  let w := map (fun a => 1 / (dist a + lit 1 2)) selected in
  let total := sumList w in
  let nw := map (fun wi => wi / total) w in
  map (fun band =>
         sumList (map (fun '(a, wi) => nth band (formants (data a)) 0 * wi)
                      (combine selected nw)))
      [0%nat; 1%nat; 2%nat].

(** At a query point, the selected anchor named [nm] carries a normalized
    weight strictly larger than each other selected anchor. *)
Definition exactMatchDominates (nm : string) (x y : T) : Prop :=
  let nearest := nearestOf x y in
  let nw := normalizedWeightsOf (weightsOf nearest) in
  exists k, nth_error (map name nearest) k = Some nm /\
            forall j, (j < 3)%nat -> j <> k -> (nth j nw 0 <? nth k nw 0) = true.

End Reference.

(** ** Sequences of calls to the core's methods *)

Section Calls.
Context {T : Type} `{JSNum T}.

Inductive CoreCall :=
| CallStart
| CallStop
| CallSetPitch (f0 : T)
| CallSetVowelPosition (x y : T)
| CallSetGender (factor : T)
| CallSetQuality (factor : T)
| CallSetVolume (vol : T).

Definition coreCall (c : @Core T) (m : CoreCall) : @Core T :=
  match m with
  | CallStart => start c
  | CallStop => stop c
  | CallSetPitch f0 => setPitch f0 c
  | CallSetVowelPosition x y => setVowelPosition x y c
  | CallSetGender factor => setGender factor c
  | CallSetQuality factor => setQuality factor c
  | CallSetVolume vol => setVolume vol c
  end.

Definition runCore (c : @Core T) (ms : list CoreCall) : @Core T := fold_left coreCall ms c.

(** While running, the audio graph exists, its filters hold the targets
    computed from the control fields and its gain holds [volume]. *)
Definition coreSynced (c : @Core T) : Prop :=
  isRunning c = true ->
  exists g, graph c = Some g /\ filterParams g = recompute c /\ masterGainValue g = volume c.

End Calls.

(** ** The React component [VowelSynthesizer] *)

(** [Math.round], kept apart from [JSNum]: only the exact reading is given
    here, [Math.round(x) = floor(x + 0.5)]. *)
Class JSRound (T : Type) := { jround : T -> T }.

#[export] Instance JSRound_R : JSRound R := {
  jround := fun x => IZR (Int_part (x + / 2))
}.

Section VowelComponent.
Context {T : Type} `{JSNum T} `{JSRound T}.
Local Open Scope js_scope.
Local Notation "0" := jzero : js_scope.
Local Notation "1" := (num 1) : js_scope.

(** [Math.min(a, b)] and [Math.max(a, b)] for a first argument that is a
    literal (never NaN): a NaN second argument is returned, as in JS. *)
Definition jsMin (a b : T) : T := if a <=? b then a else b.
Definition jsMax (a b : T) : T := if b <=? a then a else b.

(** The canvas attributes ([canvas.width], [canvas.height]) and its
    on-screen box ([canvas.getBoundingClientRect()]) at the time of an event. *)
Record Geometry := mkGeometry {
  canvasWidth : T; canvasHeight : T;
  rectLeft : T; rectTop : T; rectWidth : T; rectHeight : T
}.

(** The component's React state ([useState] hooks) and the core in
    [synthRef.current]. *)
Record VowelUI := mkVowelUI {
  uiIsRunning : bool;
  uiVowelX : T; uiVowelY : T;
  uiGender : T; uiQuality : T;
  uiPitch : T; uiVolume : T;
  uiIsDragging : bool;
  synth : @Core T
}.

Definition initVowelUI : VowelUI :=
  mkVowelUI false (num 50) (num 50) 0 (num 50) (num 120) (num 50) false initCore.

Definition withSynth (u : VowelUI) (s : @Core T) : VowelUI :=
  mkVowelUI (uiIsRunning u) (uiVowelX u) (uiVowelY u) (uiGender u) (uiQuality u)
            (uiPitch u) (uiVolume u) (uiIsDragging u) s.

(** [updateVowelPosition(clientX, clientY)] *)
Definition updateVowelPosition (geo : Geometry) (clientX clientY : T) (u : VowelUI) : VowelUI :=
  let scaleX := canvasWidth geo / rectWidth geo in
  let scaleY := canvasHeight geo / rectHeight geo in
  let x := ((clientX - rectLeft geo) * scaleX / canvasWidth geo) * num 100 in
  let y := (1 - (clientY - rectTop geo) * scaleY / canvasHeight geo) * num 100 in
  let clampedX := jsMax 0 (jsMin (num 100) x) in
  let clampedY := jsMax 0 (jsMin (num 100) y) in
  mkVowelUI (uiIsRunning u) (jround clampedX) (jround clampedY) (uiGender u)
            (uiQuality u) (uiPitch u) (uiVolume u) (uiIsDragging u)
            (setVowelPosition (clampedX / num 100) (clampedY / num 100) (synth u)).

Definition setDragging (b : bool) (u : VowelUI) : VowelUI :=
  mkVowelUI (uiIsRunning u) (uiVowelX u) (uiVowelY u) (uiGender u) (uiQuality u)
            (uiPitch u) (uiVolume u) b (synth u).

(** The component's handlers: the four sliders of the JSX, the chart's
    mouse events, the start/stop button, and [handleVowelXChange] and
    [handleVowelYChange], which are defined but bound to no element. *)
Inductive VowelEvent :=
| VowelXChange (value : T)                 (* handleVowelXChange *)
| VowelYChange (value : T)                 (* handleVowelYChange *)
| GenderChange (value : T)                 (* <input min=0 max=200> *)
| QualityChange (value : T)                (* <input min=0 max=100> *)
| PitchChange (value : T)                  (* <input min=50 max=300> *)
| VolumeChange (value : T)                 (* <input min=0 max=100> *)
| CanvasClick (geo : Geometry) (clientX clientY : T)
| CanvasMouseDown (geo : Geometry) (clientX clientY : T)
| CanvasMouseMove (geo : Geometry) (clientX clientY : T)
| CanvasMouseUp
| CanvasMouseLeave
| ToggleAudio.

(** One handler run, after the re-render that followed the previous one.
    [toggleAudio]: [start()] is taken to succeed (the [catch] branch needs
    a failing audio device). *)
Definition vowelStep (u : VowelUI) (ev : VowelEvent) : VowelUI :=
  match ev with
  | VowelXChange value =>
      mkVowelUI (uiIsRunning u) value (uiVowelY u) (uiGender u) (uiQuality u)
                (uiPitch u) (uiVolume u) (uiIsDragging u)
                (setVowelPosition (value / num 100) (uiVowelY u / num 100) (synth u))
  | VowelYChange value =>
      mkVowelUI (uiIsRunning u) (uiVowelX u) value (uiGender u) (uiQuality u)
                (uiPitch u) (uiVolume u) (uiIsDragging u)
                (setVowelPosition (uiVowelX u / num 100) (value / num 100) (synth u))
  | GenderChange value =>
      mkVowelUI (uiIsRunning u) (uiVowelX u) (uiVowelY u) value (uiQuality u)
                (uiPitch u) (uiVolume u) (uiIsDragging u)
                (setGender (value / num 100) (synth u))
  | QualityChange value =>
      let qualityFactor := (value - num 50) / num 50 in
      mkVowelUI (uiIsRunning u) (uiVowelX u) (uiVowelY u) (uiGender u) value
                (uiPitch u) (uiVolume u) (uiIsDragging u)
                (setQuality qualityFactor (synth u))
  | PitchChange value =>
      mkVowelUI (uiIsRunning u) (uiVowelX u) (uiVowelY u) (uiGender u) (uiQuality u)
                value (uiVolume u) (uiIsDragging u)
                (setPitch value (synth u))
  | VolumeChange value =>
      mkVowelUI (uiIsRunning u) (uiVowelX u) (uiVowelY u) (uiGender u) (uiQuality u)
                (uiPitch u) value (uiIsDragging u)
                (setVolume (value / num 2) (synth u))
  | CanvasClick geo cx cy => updateVowelPosition geo cx cy u
  | CanvasMouseDown geo cx cy => updateVowelPosition geo cx cy (setDragging true u)
  | CanvasMouseMove geo cx cy =>
      if uiIsDragging u then updateVowelPosition geo cx cy u else u
  | CanvasMouseUp => setDragging false u
  | CanvasMouseLeave => setDragging false u
  | ToggleAudio =>
      if negb (isRunning (synth u)) then
        let s := setVolume (uiVolume u / num 2) (start (synth u)) in
        mkVowelUI true (uiVowelX u) (uiVowelY u) (uiGender u) (uiQuality u)
                  (uiPitch u) (uiVolume u) (uiIsDragging u) s
      else
        mkVowelUI false (uiVowelX u) (uiVowelY u) (uiGender u) (uiQuality u)
                  (uiPitch u) (uiVolume u) (uiIsDragging u) (stop (synth u))
  end.

Definition runVowelUI (u : VowelUI) (evs : list VowelEvent) : VowelUI :=
  fold_left vowelStep evs u.

(** Inputs the page can deliver: each slider's value lies between its
    [min] and [max] attributes (the two unbound position handlers are given
    values of the chart's range [[0, 100]]), and a mouse event on the chart
    comes with a rendered canvas (positive sizes). *)
Definition inRange (lo v hi : T) : bool := (lo <=? v) && (v <=? hi).

Definition positiveGeometry (geo : Geometry) : bool :=
  (0 <? canvasWidth geo) && (0 <? canvasHeight geo) &&
  (0 <? rectWidth geo) && (0 <? rectHeight geo).

Definition validVowelEvent (ev : VowelEvent) : bool :=
  match ev with
  | VowelXChange v | VowelYChange v | QualityChange v | VolumeChange v =>
      inRange 0 v (num 100)
  | GenderChange v => inRange 0 v (num 200)
  | PitchChange v => inRange (num 50) v (num 300)
  | CanvasClick geo _ _ | CanvasMouseDown geo _ _ | CanvasMouseMove geo _ _ =>
      positiveGeometry geo
  | CanvasMouseUp | CanvasMouseLeave | ToggleAudio => true
  end.

(** [getQualityLabel(value)]; [-0.3] is the negation of the literal [0.3],
    which [0 - 0.3] computes exactly. *)
Definition getQualityLabel (value : T) : string :=
  let qualityFactor := (value - num 50) / num 50 in
  if qualityFactor <? 0 - lit 3 1 then "Tense"%string
  else if lit 3 1 <? qualityFactor then "Breathy"%string
  else "Normal"%string.

(** Where [drawVowelChart] draws a point of the chart:
    [(pos[0] * canvas.width, (1 - pos[1]) * canvas.height)]. *)
Definition chartPoint (geo : Geometry) (px py : T) : T * T :=
  (px * canvasWidth geo, (1 - py) * canvasHeight geo).

(** The vertical coordinate [drawWaveform] plots for one sample of
    [getByteTimeDomainData] (the same code in both components). *)
Definition waveformY (height sample : T) : T :=
  let v := (sample - num 128) / num 128 in
  let y := height / num 2 + (v * height / num 2 * num 2) in
  jsMax 0 (jsMin height y).

End VowelComponent.

(** ** [SawtoothGeneratorCore] and the component [SawtoothGenerator] *)

Section Sawtooth.
Context {T : Type} `{JSNum T}.
Local Open Scope js_scope.

Record SawGraph := mkSawGraph {
  sawOscillatorFrequency : T;     (* oscillator.frequency *)
  sawGainValue : T                (* masterGain.gain *)
}.

Record SawCore := mkSawCore {
  sawIsRunning : bool;
  sawGraph : option SawGraph;     (* None while audioContext is null *)
  sawPitch : T;
  sawVolume : T
}.

Definition initSawCore : SawCore := mkSawCore false None (num 120) (lit 5 1).

Definition sawStart (c : SawCore) : SawCore :=
  if sawIsRunning c then c
  else mkSawCore true (Some (mkSawGraph (sawPitch c) (sawVolume c))) (sawPitch c) (sawVolume c).

Definition sawStop (c : SawCore) : SawCore :=
  if sawIsRunning c then mkSawCore false (sawGraph c) (sawPitch c) (sawVolume c) else c.

Definition sawSetPitch (f0 : T) (c : SawCore) : SawCore :=
  let c := mkSawCore (sawIsRunning c) (sawGraph c) f0 (sawVolume c) in
  if sawIsRunning c then
    match sawGraph c with
    | Some g => mkSawCore true (Some (mkSawGraph f0 (sawGainValue g))) f0 (sawVolume c)
    | None => c
    end
  else c.

Definition sawSetVolume (vol : T) (c : SawCore) : SawCore :=
  let c := mkSawCore (sawIsRunning c) (sawGraph c) (sawPitch c) vol in
  if sawIsRunning c then
    match sawGraph c with
    | Some g => mkSawCore true (Some (mkSawGraph (sawOscillatorFrequency g) vol)) (sawPitch c) vol
    | None => c
    end
  else c.

Record SawUI := mkSawUI {
  sawUiIsRunning : bool;
  sawUiPitch : T;
  sawUiVolume : T;
  sawSynth : SawCore
}.

Definition initSawUI : SawUI := mkSawUI false (num 120) (num 50) initSawCore.

Inductive SawEvent :=
| SawPitchChange (value : T)       (* <input min=50 max=300> *)
| SawVolumeChange (value : T)      (* <input min=0 max=100> *)
| SawToggleAudio.

(** [toggleAudio] with a [start()] that succeeds. *)
Definition sawStep (u : SawUI) (ev : SawEvent) : SawUI :=
  match ev with
  | SawPitchChange value =>
      mkSawUI (sawUiIsRunning u) value (sawUiVolume u) (sawSetPitch value (sawSynth u))
  | SawVolumeChange value =>
      mkSawUI (sawUiIsRunning u) (sawUiPitch u) value
              (sawSetVolume (value / num 100) (sawSynth u))
  | SawToggleAudio =>
      if negb (sawIsRunning (sawSynth u)) then
        let s := sawStart (sawSynth u) in
        let s := sawSetPitch (sawUiPitch u) s in
        let s := sawSetVolume (sawUiVolume u / num 100) s in
        mkSawUI true (sawUiPitch u) (sawUiVolume u) s
      else mkSawUI false (sawUiPitch u) (sawUiVolume u) (sawStop (sawSynth u))
  end.

Definition runSawUI (u : SawUI) (evs : list SawEvent) : SawUI := fold_left sawStep evs u.

End Sawtooth.

Section EventHelpers.
Context {T : Type} `{JSNum T} `{JSRound T}.

(** A mouse event at a client point [(geo, clientX, clientY)]. *)
Definition moveEvent (p : @Geometry T * T * T) : VowelEvent :=
  let '(geo, cx, cy) := p in CanvasMouseMove geo cx cy.

Definition clickEvent (p : @Geometry T * T * T) : VowelEvent :=
  let '(geo, cx, cy) := p in CanvasClick geo cx cy.


End EventHelpers.

(** The agreement the vowel component keeps between its React state and its
    core, read on exact reals. *)
Definition vowelUIConsistent (u : @VowelUI R) : Prop :=
  uiIsRunning u = isRunning (synth u) /\
  coreSynced (synth u) /\
  (0 <= uiVowelX u <= 100)%R /\ (0 <= uiVowelY u <= 100)%R /\
  (0 <= vowelX (synth u) <= 1)%R /\ (0 <= vowelY (synth u) <= 1)%R /\
  (Rabs (vowelX (synth u) * 100 - uiVowelX u) <= / 2)%R /\
  (Rabs (vowelY (synth u) * 100 - uiVowelY u) <= / 2)%R /\
  (0 <= uiGender u <= 200)%R /\ genderFactor (synth u) = (uiGender u / 100)%R /\
  (0 <= uiQuality u <= 100)%R /\ qualityFactor (synth u) = ((uiQuality u - 50) / 50)%R /\
  (0 <= uiVolume u <= 100)%R /\ volume (synth u) = (uiVolume u / 2)%R.

(** A canvas of 600 x 400 shown at 300 x 200, at (10, 20) on the page. *)
Definition chartGeometry : @Geometry R := mkGeometry 600%R 400%R 10%R 20%R 300%R 200%R.

(** A session: gender slider at 200, quality at 0, pitch at 200, a click on
    the chart, start, volume at 80. *)
Definition sampleEvents : list (@VowelEvent R) :=
  [GenderChange 200%R; QualityChange 0%R; PitchChange 200%R;
   CanvasClick chartGeometry 100%R 50%R; ToggleAudio; VolumeChange 80%R].

(** * Facts evaluated on binary64, the numbers of the running code *)

Module OnDoubles.
Local Open Scope js_scope.

(** The control state of claim C1: position (0.9, 0.9), gender 0, quality 0. *)
Definition beetState : Core := mkCore false None (lit 9 1 : float) (lit 9 1) jzero jzero (num 25).

Definition beetFrequencies : list float := map fst (recompute beetState).

(** The three anchors [interpolateFormants] selects at (0.9, 0.9), their
    weights [1 / (dist + 0.01)] and the normalized weights. *)
Definition beetNearest : list (@Entry float) := nearestOf (lit 9 1) (lit 9 1).

Definition beetWeights : list float := weightsOf beetNearest.

Definition beetNormalizedWeights : list float := normalizedWeightsOf beetWeights.

(** The start-up state of the core: position (0.5, 0.5), gender 0, quality 0. *)
Definition startupQs : list float := map snd (recompute (@initCore float _)).

(** C1 (counterexample): at (0.9, 0.9) with gender 0 and quality 0 the
    first center frequency exceeds 283.5 = 1.05 * 270, so it is not within
    5% of 270 Hz. *)
Lemma C1_F1_outside_five_percent :
  (lit 2835 1 <? nth 0 beetFrequencies jzero) = true.
Proof. vm_compute. reflexivity. Qed.

(** C1 (amended): at (0.9, 0.9) with gender 0 and quality 0 the pipeline
    gives three frequencies.  F1 lies in [283.85, 283.87], so it is above
    283.5 = 1.05 * 270 (outside 5% of 270 Hz) and below 286.2 = 1.06 * 270
    (within 6%); F2 lies in [2260.97, 2260.99], within 5% of 2290 Hz
    ([2175.5, 2404.5]); F3 lies in [2969.99, 2970.01], within 5% of
    3010 Hz ([2859.5, 3160.5]).  The three selected anchors are 'i', 'I'
    and 'e'; 'i', at distance 0, gets the weight [1 / 0.01 = 100] and a
    normalized weight in [0.917, 0.918], and the other two keep positive
    normalized weights. *)
Lemma C1_beet_frequencies_bounds :
  List.length beetFrequencies = 3%nat /\
  (lit 2835 1 <? nth 0 beetFrequencies jzero) = true /\
  (nth 0 beetFrequencies jzero <=? lit 2862 1) = true /\
  (lit 28385 2 <=? nth 0 beetFrequencies jzero) = true /\
  (nth 0 beetFrequencies jzero <=? lit 28387 2) = true /\
  (lit 21755 1 <=? nth 1 beetFrequencies jzero) = true /\
  (nth 1 beetFrequencies jzero <=? lit 24045 1) = true /\
  (lit 226097 2 <=? nth 1 beetFrequencies jzero) = true /\
  (nth 1 beetFrequencies jzero <=? lit 226099 2) = true /\
  (lit 28595 1 <=? nth 2 beetFrequencies jzero) = true /\
  (nth 2 beetFrequencies jzero <=? lit 31605 1) = true /\
  (lit 296999 2 <=? nth 2 beetFrequencies jzero) = true /\
  (nth 2 beetFrequencies jzero <=? lit 297001 2) = true /\
  map name beetNearest = ["i"%string; "I"%string; "e"%string] /\
  dist (nth 0 beetNearest undefinedEntry) = jzero /\
  nth 0 beetWeights jzero = num 1 / lit 1 2 /\
  nth 0 beetWeights jzero = num 100 /\
  (lit 917 3 <=? nth 0 beetNormalizedWeights jzero) = true /\
  (nth 0 beetNormalizedWeights jzero <=? lit 918 3) = true /\
  (jzero <? nth 1 beetNormalizedWeights jzero) = true /\
  (jzero <? nth 2 beetNormalizedWeights jzero) = true.
Proof. vm_compute. repeat split. Qed.

(** C10 (counterexample): on the doubles the code computes with, the three
    Q values at the start-up state are 12.499999999999998 (the double
    [0x1.8ffffffffffffp+3], one ulp below 12.5), 12.499999999999998 and 12.5: the first and the third band do not receive
    the same Q, and the first is not the closed form
    [1 / (0.08 * (1 + 0.5 * 0))], which is 12.5 in doubles. *)
Lemma C10_startup_Q_bands_differ :
  startupQs = ([0x1.8ffffffffffffp+3; 0x1.8ffffffffffffp+3; 12.5])%float /\
  nth 0 startupQs jzero <> nth 2 startupQs jzero /\
  nth 0 startupQs jzero <> num 1 / (lit 8 2 * (num 1 + lit 5 1 * jzero)).
Proof.
  split; [vm_compute; reflexivity|].
  split; intros E; apply (f_equal (fun x => PrimFloat.eqb x 12.5%float)) in E;
    vm_compute in E; discriminate E.
Qed.

(** C7: for every catalog anchor, interpolating at exactly its position
    gives that anchor a normalized weight strictly larger than the weight of
    each of the other two selected anchors. *)
Theorem C7_exact_anchor_dominates :
  forall (nm : string) (d : @VowelData float),
    In (nm, d) (@VOWELS float _) ->
    exactMatchDominates nm (nth 0 (pos d) jzero) (nth 1 (pos d) jzero).
Proof.
  intros nm d Hin.
  simpl in Hin.
  repeat (destruct Hin as [Hin | Hin]; [injection Hin as <- <-; exists 0%nat; split;
      [vm_compute; reflexivity
      | intros j Hj Hne; destruct j as [|[|[|j]]];
        [congruence | vm_compute; reflexivity | vm_compute; reflexivity | lia]] |]).
  contradiction.
Qed.

End OnDoubles.

(** * Facts that hold for every number representation *)

Section Generic.
Context {T : Type} `{JSNum T}.

Lemma in_insertSorted (a e : Entry) (l : list Entry) :
  In e (insertSorted a l) <-> e = a \/ In e l.
Proof.
  induction l as [|b r IH]; simpl.
  - intuition congruence.
  - destruct (compareDist a b <=? jzero)%js; simpl; [intuition congruence|].
    rewrite IH. intuition congruence.
Qed.

Lemma in_sortByDist (e : Entry) (l : list Entry) : In e (sortByDist l) <-> In e l.
Proof.
  induction l as [|a r IH]; simpl; [tauto|].
  rewrite in_insertSorted, IH. intuition congruence.
Qed.

Lemma length_insertSorted (a : Entry) (l : list Entry) :
  List.length (insertSorted a l) = S (List.length l).
Proof.
  induction l as [|b r IH]; simpl; [reflexivity|].
  destruct (compareDist a b <=? jzero)%js; simpl; congruence.
Qed.

Lemma length_sortByDist (l : list Entry) : List.length (sortByDist l) = List.length l.
Proof.
  induction l as [|a r IH]; simpl; [reflexivity|].
  rewrite length_insertSorted. congruence.
Qed.

(** [nearest] holds exactly three entries of [distances]. *)
Lemma nearestOf_shape (x y : T) :
  exists a b c, nearestOf x y = [a; b; c] /\
    In a (distances x y) /\ In b (distances x y) /\ In c (distances x y).
Proof.
  unfold nearestOf.
  pose proof (length_sortByDist (distances x y)) as Hlen.
  assert (Hin : forall e, In e (sortByDist (distances x y)) -> In e (distances x y))
    by (intros e; apply in_sortByDist).
  destruct (sortByDist (distances x y)) as [|a [|b [|c rest]]];
    try discriminate Hlen.
  exists a, b, c. simpl. repeat split; apply Hin; simpl; tauto.
Qed.

Lemma in_distances (x y : T) (e : Entry) :
  In e (distances x y) ->
  In (name e, data e) VOWELS /\
  dist e = jsqrt (jadd (jmul (jsub (nth 0 (pos (data e)) jzero) x)
                              (jsub (nth 0 (pos (data e)) jzero) x))
                        (jmul (jsub (nth 1 (pos (data e)) jzero) y)
                              (jsub (nth 1 (pos (data e)) jzero) y))).
Proof.
  unfold distances. rewrite in_map_iff.
  intros [[nm d] [<- Hin]]. simpl. auto.
Qed.

(** C8: re-running [updateVowel] on an unchanged control state recomputes
    the same (frequency, Q) pairs and leaves the core as the first run left
    it: the control fields are not touched by [updateVowel] and the filter
    targets are a function of them alone. *)
Theorem C8_recompute_idempotent (c : Core) :
  recompute (updateVowel c) = recompute c /\
  updateVowel (updateVowel c) = updateVowel c.
Proof.
  destruct c as [run g x y gf qf vol].
  unfold updateVowel; simpl.
  destruct run; [|split; reflexivity].
  destruct g as [g|]; simpl; split; reflexivity.
Qed.

End Generic.

(** * Facts on the exact-arithmetic reading *)

Module OnReals.
Local Open Scope R_scope.

Ltac js_R := unfold lit, num in *; cbn in *.

Lemma Rleb_true (a b : R) : Rleb a b = true <-> a <= b.
Proof. unfold Rleb; destruct (Rle_dec a b); split; intros; try discriminate; auto; lra. Qed.

Lemma Rleb_false (a b : R) : Rleb a b = false <-> b < a.
Proof. unfold Rleb; destruct (Rle_dec a b); split; intros; try discriminate; auto; lra. Qed.

Ltac case_Rleb :=
  match goal with
  | |- context [Rleb ?a ?b] =>
      let E := fresh "E" in
      destruct (Rleb a b) eqn:E; [apply Rleb_true in E | apply Rleb_false in E]
  end.

Lemma Rleb_sub (a b : R) : Rleb (a - b) 0 = Rleb a b.
Proof.
  unfold Rleb; destruct (Rle_dec (a - b) 0), (Rle_dec a b); auto; lra.
Qed.

Lemma genderScale_R (g : R) :
  genderScale g = if Rleb g 1 then 1 + 0.18 * g else 1.18 + 0.25 * (g - 1).
Proof. unfold genderScale. js_R. destruct (Rleb g 1); lra. Qed.

Lemma bandwidthMult_R (q : R) :
  bandwidthMult q = if Rleb 0 q then 1 + 0.5 * q else 1 + 0.3 * q.
Proof. unfold bandwidthMult. js_R. destruct (Rleb 0 q); lra. Qed.

Lemma calculateBandwidth_R (f q : R) :
  calculateBandwidth f q = f * 0.08 * bandwidthMult q.
Proof. unfold calculateBandwidth. js_R. lra. Qed.

Lemma genderScale_ge_1 (g : R) : 0 <= g <= 2 -> 1 <= genderScale g.
Proof.
  intros Hg. rewrite genderScale_R.
  destruct (Rleb g 1) eqn:E; [apply Rleb_true in E | apply Rleb_false in E]; lra.
Qed.

Lemma bandwidthMult_ge (q : R) : -1 <= q <= 1 -> 0.7 <= bandwidthMult q.
Proof.
  intros Hq. rewrite bandwidthMult_R.
  destruct (Rleb 0 q) eqn:E; [apply Rleb_true in E | apply Rleb_false in E]; lra.
Qed.

Lemma dist_nonneg (x y : R) (e : Entry) : In e (distances x y) -> 0 <= dist e.
Proof. intros Hin. apply in_distances in Hin as [_ ->]. apply sqrt_pos. Qed.

Lemma nearest_in_distances (x y : R) (e : Entry) :
  In e (nearestOf x y) -> In e (distances x y).
Proof.
  unfold nearestOf. intros Hin.
  apply in_sortByDist.
  rewrite <- (firstn_skipn 3 (sortByDist (distances x y))).
  apply in_or_app. left. exact Hin.
Qed.

(** C3: the gender scale is [1.0 + 0.18 g] on [0, 1] and
    [1.18 + 0.25 (g - 1)] above 1, every formant is multiplied by this one
    scalar, gender 0 is the identity and the scale at [g = 1] is exactly
    1.18. *)
Theorem C3_gender_scaling (g : R) :
  (0 <= g <= 1 -> genderScale g = 1 + 0.18 * g) /\
  (1 < g -> genderScale g = 1.18 + 0.25 * (g - 1)) /\
  (forall fs : list R, scaleFormantsForGender fs g = map (fun f => f * genderScale g) fs) /\
  (forall fs : list R, scaleFormantsForGender fs 0 = fs) /\
  genderScale 1 = 1.18.
Proof.
  split; [|split; [|split; [|split]]].
  - intros Hg. rewrite genderScale_R. case_Rleb; lra.
  - intros Hg. rewrite genderScale_R. case_Rleb; lra.
  - intros fs. reflexivity.
  - intros fs. unfold scaleFormantsForGender.
    rewrite genderScale_R. case_Rleb; [|lra].
    transitivity (map (fun f : R => f) fs); [|apply map_id].
    apply map_ext. intros f. js_R. lra.
  - rewrite genderScale_R. case_Rleb; lra.
Qed.

(** C4: [calculateBandwidth f q] is [f * 0.08 * (1 + 0.5 q)] for [q >= 0]
    and [f * 0.08 * (1 + 0.3 q)] for [q < 0]; at [q = 0] it is [f * 0.08]. *)
Theorem C4_bandwidth (f q : R) :
  (0 <= q -> calculateBandwidth f q = f * 0.08 * (1 + 0.5 * q)) /\
  (q < 0 -> calculateBandwidth f q = f * 0.08 * (1 + 0.3 * q)) /\
  calculateBandwidth f 0 = f * 0.08.
Proof.
  rewrite !calculateBandwidth_R, !bandwidthMult_R.
  repeat split.
  - intros Hq. destruct (Rleb 0 q) eqn:E; [reflexivity|].
    apply Rleb_false in E. lra.
  - intros Hq. destruct (Rleb 0 q) eqn:E; [|reflexivity].
    apply Rleb_true in E. lra.
  - case_Rleb; lra.
Qed.

(** C6: for [f > 0] and [q] in [[-1, 1]] the bandwidth multiplier is at
    least 0.7 and the bandwidth is positive, so [Q = f / bandwidth] never
    divides by zero; and for every query point each selected anchor has a
    positive weight denominator [dist + 0.01]. *)
Theorem C6_no_division_by_zero (f q : R) (Hf : 0 < f) (Hq : -1 <= q <= 1) :
  0.7 <= bandwidthMult q /\
  0 < calculateBandwidth f q /\
  forall x y : R, Forall (fun v => 0 < dist v + 0.01) (nearestOf x y).
Proof.
  pose proof (bandwidthMult_ge q Hq) as Hm.
  split; [exact Hm|]. split.
  - rewrite calculateBandwidth_R.
    apply Rmult_lt_0_compat; [|lra]. lra.
  - intros x y. apply Forall_forall. intros v Hv.
    apply nearest_in_distances, dist_nonneg in Hv. lra.
Qed.

(** Every catalog anchor has three positive formants. *)
Lemma vowels_formants_pos (nm : string) (d : @VowelData R) :
  In (nm, d) VOWELS ->
  exists f1 f2 f3, formants d = [f1; f2; f3] /\ 0 < f1 /\ 0 < f2 /\ 0 < f3.
Proof.
  intros Hin. simpl in Hin.
  repeat (destruct Hin as [Hin | Hin];
          [injection Hin as _ <-; do 3 eexists; split; [reflexivity|]; js_R; lra|]).
  contradiction.
Qed.

Lemma blend3_pos (f1 f2 f3 w1 w2 w3 : R) :
  0 < f1 -> 0 < f2 -> 0 < f3 -> 0 < w1 -> 0 < w2 -> 0 < w3 ->
  0 < 0 + f1 * (w1 / (0 + w1 + w2 + w3)) + f2 * (w2 / (0 + w1 + w2 + w3))
        + f3 * (w3 / (0 + w1 + w2 + w3)).
Proof.
  intros. assert (Ht : 0 < 0 + w1 + w2 + w3) by lra.
  assert (0 < f1 * (w1 / (0 + w1 + w2 + w3)))
    by (apply Rmult_lt_0_compat; [|apply Rdiv_lt_0_compat]; lra).
  assert (0 < f2 * (w2 / (0 + w1 + w2 + w3)))
    by (apply Rmult_lt_0_compat; [|apply Rdiv_lt_0_compat]; lra).
  assert (0 < f3 * (w3 / (0 + w1 + w2 + w3)))
    by (apply Rmult_lt_0_compat; [|apply Rdiv_lt_0_compat]; lra).
  lra.
Qed.

Lemma weight_pos (x y : R) (e : Entry) : In e (distances x y) -> 0 < 1 / (dist e + 1 / 100).
Proof.
  intros He. apply dist_nonneg in He.
  apply Rdiv_lt_0_compat; lra.
Qed.

Lemma nearest_formants (x y : R) (e : Entry) :
  In e (distances x y) ->
  exists f1 f2 f3, formants (data e) = [f1; f2; f3] /\ 0 < f1 /\ 0 < f2 /\ 0 < f3.
Proof.
  intros He. apply in_distances in He as [Hv _].
  exact (vowels_formants_pos _ _ Hv).
Qed.

(** [interpolateFormants] returns three positive frequencies, at any point. *)
Lemma interpolateFormants_pos (x y : R) :
  exists f1 f2 f3, interpolateFormants x y = [f1; f2; f3] /\ 0 < f1 /\ 0 < f2 /\ 0 < f3.
Proof.
  destruct (nearestOf_shape x y) as (a & b & c & Hn & Ha & Hb & Hc).
  pose proof (weight_pos x y a Ha) as Wa.
  pose proof (weight_pos x y b Hb) as Wb.
  pose proof (weight_pos x y c Hc) as Wc.
  destruct (nearest_formants x y a Ha) as (a1 & a2 & a3 & Fa & Pa1 & Pa2 & Pa3).
  destruct (nearest_formants x y b Hb) as (b1 & b2 & b3 & Fb & Pb1 & Pb2 & Pb3).
  destruct (nearest_formants x y c Hc) as (c1 & c2 & c3 & Fc & Pc1 & Pc2 & Pc3).
  unfold interpolateFormants. rewrite Hn.
  unfold blend, normalizedWeightsOf, totalWeightOf, weightsOf.
  cbn [map seq fold_left nth].
  rewrite Fa, Fb, Fc. js_R.
  do 3 eexists. split; [reflexivity|].
  repeat split; apply blend3_pos; assumption.
Qed.

Lemma Q_pos (f m : R) : 0 < f -> 0 < m -> 0 < f / (f * 0.08 * m).
Proof.
  intros Hf Hm. apply Rdiv_lt_0_compat; [exact Hf|].
  apply Rmult_lt_0_compat; [|exact Hm]. lra.
Qed.

(** C5: for a position in [[0,1]^2], a gender factor in [[0,2]] and a
    quality factor in [[-1,1]], [interpolateFormants] returns exactly three
    positive frequencies and the recompute step of [updateVowel] exactly
    three pairs (frequency, Q), all strictly positive. *)
Theorem C5_positive_outputs (c : @Core R)
  (Hx : 0 <= vowelX c <= 1) (Hy : 0 <= vowelY c <= 1)
  (Hg : 0 <= genderFactor c <= 2) (Hq : -1 <= qualityFactor c <= 1) :
  List.length (interpolateFormants (vowelX c) (vowelY c)) = 3%nat /\
  Forall (fun f => 0 < f) (interpolateFormants (vowelX c) (vowelY c)) /\
  List.length (recompute c) = 3%nat /\
  Forall (fun '(f, Q) => 0 < f /\ 0 < Q) (recompute c).
Proof.
  pose proof (genderScale_ge_1 _ Hg) as Hs.
  pose proof (bandwidthMult_ge _ Hq) as Hm.
  destruct (interpolateFormants_pos (vowelX c) (vowelY c))
    as (f1 & f2 & f3 & Hi & P1 & P2 & P3).
  unfold recompute. rewrite Hi.
  unfold scaleFormantsForGender.
  cbn [map seq nth].
  rewrite !calculateBandwidth_R.
  cbn [List.length].
  assert (S1 : 0 < f1 * genderScale (genderFactor c)) by (apply Rmult_lt_0_compat; lra).
  assert (S2 : 0 < f2 * genderScale (genderFactor c)) by (apply Rmult_lt_0_compat; lra).
  assert (S3 : 0 < f3 * genderScale (genderFactor c)) by (apply Rmult_lt_0_compat; lra).
  split; [reflexivity|]. split; [repeat constructor; assumption|].
  split; [reflexivity|].
  cbn [jmul jdiv JSNum_R].
  repeat (apply Forall_cons; [split; [assumption | apply Q_pos; lra] |]).
  apply Forall_nil.
Qed.

Lemma compareDist_R (a b : @Entry R) :
  (compareDist a b <=? jzero)%js = Rleb (dist a) (dist b).
Proof. unfold compareDist. js_R. apply Rleb_sub. Qed.

(** The stable sort puts the first closest anchor in front of the sorted
    remaining anchors. *)
Lemma sortByDist_extract (a : @Entry R) (l : list Entry) :
  sortByDist (a :: l) =
  fst (extractClosest a l) :: sortByDist (snd (extractClosest a l)).
Proof.
  revert a. induction l as [|b r IH]; intros a; [reflexivity|].
  change (sortByDist (a :: b :: r)) with (insertSorted a (sortByDist (b :: r))).
  rewrite IH. cbn [extractClosest].
  destruct (extractClosest b r) as [m rest] eqn:Ex. cbn [fst snd insertSorted].
  rewrite compareDist_R. cbn [jleb JSNum_R].
  destruct (Rleb (dist a) (dist m)); cbn [fst snd].
  - rewrite IH, Ex. reflexivity.
  - reflexivity.
Qed.

Lemma firstn_sortByDist_select (k : nat) (l : list (@Entry R)) :
  firstn k (sortByDist l) = selectClosest k l.
Proof.
  revert l. induction k as [|k IH]; intros l; [reflexivity|].
  destruct l as [|a r]; [reflexivity|].
  rewrite sortByDist_extract. cbn [selectClosest].
  destruct (extractClosest a r) as [m rest]. cbn [firstn fst snd].
  rewrite IH. reflexivity.
Qed.

Lemma blend_three (a b c : @Entry R) :
  blend [a; b; c] (normalizedWeightsOf (weightsOf [a; b; c])) =
  (let selected := [a; b; c] in
   let w := map (fun e => jdiv (num 1) (jadd (dist e) (lit 1 2))) selected in
   let total := sumList w in
   let nw := map (fun wi => jdiv wi total) w in
   map (fun band =>
          sumList (map (fun '(e, wi) => jmul (nth band (formants (data e)) jzero) wi)
                       (combine selected nw)))
       [0%nat; 1%nat; 2%nat]).
Proof.
  unfold blend, normalizedWeightsOf, totalWeightOf, weightsOf, sumList.
  cbn [map seq fold_left fold_right nth combine].
  js_R.
  set (wa := 1 / (dist a + 1 / 100)).
  set (wb := 1 / (dist b + 1 / 100)).
  set (wc := 1 / (dist c + 1 / 100)).
  replace (0 + wa + wb + wc) with (wa + (wb + (wc + 0))) by ring.
  f_equal; [ring | f_equal; [ring | f_equal; ring]].
Qed.

(** C2: [interpolateFormants] computes the spec's reference algorithm:
    Euclidean distances to the 11 anchors, the 3 closest selected with ties
    in catalog order, weights [1 / (d + 0.01)] normalized to sum 1, and each
    band the weighted sum of the selected anchors' values. *)
Theorem C2_interpolate_refines_spec (x y : R) :
  interpolateFormants x y = interpolateFormantsSpec x y.
Proof.
  assert (Hs : selectClosest 3 (anchorsWithDistance x y) = nearestOf x y)
    by (unfold nearestOf; rewrite firstn_sortByDist_select; reflexivity).
  unfold interpolateFormantsSpec. rewrite Hs.
  unfold interpolateFormants.
  destruct (nearestOf_shape x y) as (a & b & c & Hn & _).
  rewrite Hn. apply blend_three.
Qed.

Lemma Q_closed_form (f q : R) :
  f <> 0 -> f / calculateBandwidth f q = 1 / (0.08 * bandwidthMult q).
Proof.
  intros Hf. rewrite calculateBandwidth_R.
  destruct (Req_dec (bandwidthMult q) 0) as [Hm | Hm].
  - rewrite Hm. unfold Rdiv. rewrite !Rmult_0_r, Rinv_0. ring.
  - field. repeat split; (assumption || lra).
Qed.

(** C10 (amended): in exact arithmetic, for every nonzero center frequency
    [f] the Q of the recompute step, [f / calculateBandwidth f q], is
    [1 / (0.08 (1 + 0.5 q))] for [q >= 0] and [1 / (0.08 (1 + 0.3 q))] for
    [q < 0], whatever [f]; so for every control state whose gender factor
    lies in [[0, 2]] (the values [gender / 100] the slider sends) the three
    bands receive this same Q.  On the doubles of the running code the
    three values are not all equal: at the start-up state they are
    12.499999999999998, 12.499999999999998 and 12.5. *)
Theorem C10_Q_independent_of_frequency (f q : R) (c : @Core R)
  (Hf : f <> 0) (Hg : 0 <= genderFactor c <= 2) :
  (0 <= q -> f / calculateBandwidth f q = 1 / (0.08 * (1 + 0.5 * q))) /\
  (q < 0 -> f / calculateBandwidth f q = 1 / (0.08 * (1 + 0.3 * q))) /\
  map snd (recompute c) =
    [1 / (0.08 * bandwidthMult (qualityFactor c));
     1 / (0.08 * bandwidthMult (qualityFactor c));
     1 / (0.08 * bandwidthMult (qualityFactor c))] /\
  OnDoubles.startupQs = ([0x1.8ffffffffffffp+3; 0x1.8ffffffffffffp+3; 12.5])%float.
Proof.
  split; [|split; [|split]].
  - intros Hq. rewrite Q_closed_form by exact Hf.
    rewrite bandwidthMult_R. case_Rleb; [reflexivity | lra].
  - intros Hq. rewrite Q_closed_form by exact Hf.
    rewrite bandwidthMult_R. case_Rleb; [lra | reflexivity].
  - pose proof (genderScale_ge_1 _ Hg) as Hs.
    destruct (interpolateFormants_pos (vowelX c) (vowelY c))
      as (f1 & f2 & f3 & Hi & P1 & P2 & P3).
    unfold recompute. rewrite Hi. unfold scaleFormantsForGender.
    cbn [map seq nth snd].
    rewrite !Q_closed_form; [reflexivity | ..];
      cbn [jmul JSNum_R]; apply Rmult_integral_contrapositive; split; lra.
  - vm_compute. reflexivity.
Qed.

End OnReals.

(** * Pitch and volume setters *)

(** C9 (code bug): [setPitch] drops its value.  On a core that has not
    been started, [setPitch 200] leaves the core unchanged (there is no
    pitch field, and no audio graph to hand the value to), and the later
    [start] tunes the oscillator to 120 Hz.  The sibling paths keep their
    value: [setVolume 40] stores 40, which [start] gives to the master gain,
    and the sawtooth core's [setPitch 200] stores 200, which its [start]
    plays.  In the page, moving the pitch slider to 200 and then pressing
    the start button leaves the slider at 200 and the oscillator at 120 Hz,
    since [toggleAudio] re-sends the volume but not the pitch. *)
Lemma C9_pitch_not_stored :
  setPitch (num 200) (@initCore R _) = initCore /\
  graph (@initCore R _) = None /\
  option_map oscillatorFrequency (graph (start (setPitch (num 200) (@initCore R _))))
    = Some (num 120) /\
  volume (setVolume (num 40) (@initCore R _)) = num 40 /\
  option_map masterGainValue (graph (start (setVolume (num 40) (@initCore R _))))
    = Some (num 40) /\
  sawPitch (sawSetPitch (num 200) (@initSawCore R _)) = num 200 /\
  option_map sawOscillatorFrequency (sawGraph (sawStart (sawSetPitch (num 200) (@initSawCore R _))))
    = Some (num 200) /\
  uiPitch (runVowelUI (initVowelUI (T := R)) [PitchChange (num 200); ToggleAudio]) = num 200 /\
  option_map oscillatorFrequency
    (graph (synth (runVowelUI (initVowelUI (T := R)) [PitchChange (num 200); ToggleAudio])))
    = Some (num 120).
Proof. repeat split. Qed.

(** * Instances of the theorems with hypotheses, at concrete inputs *)

Module Witnesses.
Local Open Scope R_scope.

Ltac concrete := unfold initCore, lit, num; cbn; lra.

(** C5 at the start-up state: position (0.5, 0.5), gender 0, quality 0. *)
Lemma C5_positive_outputs_witness :
  Forall (fun '(f, Q) => 0 < f /\ 0 < Q) (recompute (@initCore R _)).
Proof.
  exact (proj2 (proj2 (proj2
    (OnReals.C5_positive_outputs (@initCore R JSNum_R)
       ltac:(concrete) ltac:(concrete) ltac:(concrete) ltac:(concrete))))).
Defined.

(** C6 at frequency 270 Hz and quality 0. *)
Lemma C6_no_division_by_zero_witness :
  0 < @calculateBandwidth R _ 270 0.
Proof.
  exact (proj1 (proj2 (OnReals.C6_no_division_by_zero 270 0 ltac:(lra) ltac:(lra)))).
Defined.

(** C7 at the anchor "i", position (0.9, 0.9). *)
Lemma C7_exact_anchor_dominates_witness :
  exactMatchDominates "i"%string (lit 9 1 : float) (lit 9 1).
Proof.
  exact (OnDoubles.C7_exact_anchor_dominates "i"%string
           (@mkVowelData float [num 270; num 2290; num 3010] [lit 9 1; lit 9 1])
           (or_introl eq_refl)).
Defined.

(** C10 at frequency 270 Hz, quality 0 and the start-up state. *)
Lemma C10_Q_independent_of_frequency_witness :
  map snd (recompute (@initCore R _)) =
    [1 / (0.08 * bandwidthMult 0); 1 / (0.08 * bandwidthMult 0);
     1 / (0.08 * bandwidthMult 0)].
Proof.
  exact (proj1 (proj2 (proj2
    (OnReals.C10_Q_independent_of_frequency 270 0 (@initCore R JSNum_R) ltac:(lra)
       ltac:(unfold initCore; cbn; split; lra))))).
Defined.

End Witnesses.

(** * Further properties of the core and of the two components *)

Section CoreSequences.
Context {T : Type} `{JSNum T}.

Lemma coreSynced_init : coreSynced (@initCore T _).
Proof. intros Hr. discriminate Hr. Qed.

Lemma coreSynced_call (c : @Core T) (m : CoreCall) :
  coreSynced c -> coreSynced (coreCall c m).
Proof.
  destruct c as [run gr x y gf qf vol].
  unfold coreSynced; intros Hs.
  destruct m; cbn -[recompute];
    unfold start, stop, setPitch, setVowelPosition, setGender, setQuality, setVolume,
      updateVowel, withGraph; cbn -[recompute];
    destruct run; cbn -[recompute] in *; intros Hr; try discriminate Hr;
    try (destruct (Hs eq_refl) as (g & Hg & Hf & Hv); subst gr; cbn -[recompute]);
    eexists; (split; [reflexivity|]); cbn -[recompute]; auto.
Qed.

Lemma coreSynced_run (c : @Core T) (ms : list CoreCall) :
  coreSynced c -> coreSynced (runCore c ms).
Proof.
  unfold runCore. revert c. induction ms as [|m ms IH]; intros c Hc; cbn; [exact Hc|].
  apply IH, coreSynced_call, Hc.
Qed.

End CoreSequences.

Section CoreTheorems.
Context {T : Type} `{JSNum T}.

(** While a core driven by any sequence of method calls from
    [new VowelSynthesizerCore()] is running, its three filters hold exactly
    the (frequency, Q) targets computed from its current position, gender
    and quality, and its master gain holds its [volume] field: no call
    leaves the audio graph behind the stored controls. *)
Theorem core_graph_follows_controls (ms : list CoreCall) :
  isRunning (runCore (@initCore T _) ms) = true ->
  exists g, graph (runCore initCore ms) = Some g /\
            filterParams g = recompute (runCore initCore ms) /\
            masterGainValue g = volume (runCore initCore ms).
Proof. apply coreSynced_run, coreSynced_init. Qed.

(** [stop()] followed by [start()] on a running core (reached by any calls
    from the constructor) brings back the same filter targets and master
    gain, keeps every control field, and resets the oscillator to 120 Hz. *)
Theorem core_restart_resumes (ms : list CoreCall) :
  isRunning (runCore (@initCore T _) ms) = true ->
  exists g, graph (runCore initCore ms) = Some g /\
    graph (start (stop (runCore initCore ms))) =
      Some (mkAudioGraph (num 120) (filterParams g) (masterGainValue g)) /\
    isRunning (start (stop (runCore initCore ms))) = true /\
    (vowelX (start (stop (runCore initCore ms))),
     vowelY (start (stop (runCore initCore ms))),
     genderFactor (start (stop (runCore initCore ms))),
     qualityFactor (start (stop (runCore initCore ms))),
     volume (start (stop (runCore initCore ms)))) =
    (vowelX (runCore initCore ms), vowelY (runCore initCore ms),
     genderFactor (runCore initCore ms), qualityFactor (runCore initCore ms),
     volume (runCore initCore ms)).
Proof.
  intros Hr.
  destruct (coreSynced_run initCore ms coreSynced_init Hr) as (g & Hg & Hf & Hv).
  exists g. split; [exact Hg|].
  destruct (runCore initCore ms) as [run gr x y gf qf vol].
  cbn -[recompute] in *. subst run gr.
  unfold stop, start, updateVowel, withGraph. cbn -[recompute].
  rewrite Hf, Hv. repeat split.
Qed.

(** The three setters that retune the filters commute with each other and
    with [setVolume], and a second call of the same setter overrides the
    first, on every core (running or not): the state only depends on the
    last value given to each control. *)
Theorem core_setters_commute (c : @Core T) (x y x' y' g g' q q' v v' : T) :
  setGender g (setVowelPosition x y c) = setVowelPosition x y (setGender g c) /\
  setQuality q (setVowelPosition x y c) = setVowelPosition x y (setQuality q c) /\
  setQuality q (setGender g c) = setGender g (setQuality q c) /\
  setVolume v (setVowelPosition x y c) = setVowelPosition x y (setVolume v c) /\
  setVolume v (setGender g c) = setGender g (setVolume v c) /\
  setVolume v (setQuality q c) = setQuality q (setVolume v c) /\
  setVowelPosition x' y' (setVowelPosition x y c) = setVowelPosition x' y' c /\
  setGender g' (setGender g c) = setGender g' c /\
  setQuality q' (setQuality q c) = setQuality q' c /\
  setVolume v' (setVolume v c) = setVolume v' c.
Proof.
  destruct c as [run gr x0 y0 gf qf vol].
  unfold setVowelPosition, setGender, setQuality, setVolume, updateVowel, withGraph.
  destruct run; [destruct gr as [gr|]|]; cbn -[recompute]; repeat split.
Qed.

End CoreTheorems.

Section ComponentTheorems.
Context {T : Type} `{JSNum T} `{JSRound T}.
Local Open Scope js_scope.

Lemma setVowelPosition_twice (c : @Core T) (x y x' y' : T) :
  setVowelPosition x' y' (setVowelPosition x y c) = setVowelPosition x' y' c.
Proof.
  destruct c as [run gr x0 y0 gf qf vol].
  unfold setVowelPosition, updateVowel, withGraph.
  destruct run; [destruct gr as [gr|]|]; reflexivity.
Qed.

Lemma updateVowelPosition_twice (u : @VowelUI T) geo cx cy geo' cx' cy' :
  updateVowelPosition geo' cx' cy' (updateVowelPosition geo cx cy u) =
  updateVowelPosition geo' cx' cy' u.
Proof.
  destruct u. unfold updateVowelPosition. cbn -[setVowelPosition].
  rewrite setVowelPosition_twice. reflexivity.
Qed.

Lemma dragging_updateVowelPosition (u : @VowelUI T) geo cx cy :
  uiIsDragging (updateVowelPosition geo cx cy u) = uiIsDragging u.
Proof. reflexivity. Qed.

Lemma last_nonempty_default {A : Type} (r : A) (l : list A) (d d' : A) :
  last (r :: l) d = last (r :: l) d'.
Proof.
  revert r. induction l as [|r' l IH]; intros r; [reflexivity|].
  change (last (r' :: l) d = last (r' :: l) d'). apply IH.
Qed.

Lemma moves_while_dragging (w : @VowelUI T) (p : Geometry * T * T) (ps : list (Geometry * T * T)) :
  uiIsDragging w = true ->
  runVowelUI (vowelStep w (clickEvent p)) (map moveEvent ps) =
  vowelStep w (clickEvent (last ps p)).
Proof.
  revert p. induction ps as [|q ps IH]; intros p Hw; [reflexivity|].
  unfold runVowelUI. cbn [map fold_left].
  replace (vowelStep (vowelStep w (clickEvent p)) (moveEvent q))
    with (vowelStep w (clickEvent q)).
  - pose proof (IH q Hw) as E. unfold runVowelUI in E. rewrite E.
    destruct ps as [|r ps]; [reflexivity|]. exact (f_equal (fun e => vowelStep w (clickEvent e)) (last_nonempty_default r ps q p)).
  - destruct p as [[g x] y], q as [[g' x'] y']. cbn [clickEvent moveEvent vowelStep].
    rewrite dragging_updateVowelPosition, Hw, updateVowelPosition_twice. reflexivity.
Qed.

Lemma moves_when_released (w : @VowelUI T) (ps : list (Geometry * T * T)) :
  uiIsDragging w = false -> runVowelUI w (map moveEvent ps) = w.
Proof.
  intros Hw. induction ps as [|[[g x] y] ps IH]; [reflexivity|].
  unfold runVowelUI in *. cbn [map fold_left moveEvent vowelStep]. rewrite Hw. exact IH.
Qed.

(** A drag on the chart (mouse down, any moves, release by mouse up or by
    leaving the canvas, then any further moves) ends in the same state as
    a single click at the drag's last point: only the last point reaches
    the synthesizer, and the moves after the release are ignored. *)
Theorem drag_ends_like_click (u : @VowelUI T) (p : Geometry * T * T)
  (ps qs : list (Geometry * T * T)) (release : VowelEvent)
  (Hu : uiIsDragging u = false)
  (Hrel : release = CanvasMouseUp \/ release = CanvasMouseLeave) :
  runVowelUI u ((let '(geo, cx, cy) := p in CanvasMouseDown geo cx cy)
                 :: map moveEvent ps ++ release :: map moveEvent qs) =
  vowelStep u (clickEvent (last ps p)).
Proof.
  unfold runVowelUI. cbn [fold_left]. rewrite fold_left_app. cbn [fold_left].
  replace (vowelStep u (let '(geo, cx, cy) := p in CanvasMouseDown geo cx cy))
    with (vowelStep (setDragging true u) (clickEvent p))
    by (destruct p as [[g x] y]; reflexivity).
  change (fold_left vowelStep (map moveEvent ps) (vowelStep (setDragging true u) (clickEvent p)))
    with (runVowelUI (vowelStep (setDragging true u) (clickEvent p)) (map moveEvent ps)).
  rewrite moves_while_dragging by reflexivity.
  assert (Hr : vowelStep (vowelStep (setDragging true u) (clickEvent (last ps p))) release =
               vowelStep u (clickEvent (last ps p))).
  { destruct (last ps p) as [[g x] y].
    destruct u; cbn in Hu; subst.
    destruct Hrel as [-> | ->]; reflexivity. }
  rewrite Hr. apply moves_when_released.
  destruct (last ps p) as [[g x] y]. cbn. exact Hu.
Qed.

(** Pressing the start button on a stopped synthesizer starts the core with
    the oscillator at 120 Hz whatever the pitch slider shows, the filters at
    the targets of the stored controls and the gain at [volume / 2]. *)
Theorem toggle_start_ignores_pitch_slider (u : @VowelUI T) :
  isRunning (synth u) = false ->
  uiIsRunning (vowelStep u ToggleAudio) = true /\
  isRunning (synth (vowelStep u ToggleAudio)) = true /\
  graph (synth (vowelStep u ToggleAudio)) =
    Some (mkAudioGraph (num 120) (recompute (synth u)) (uiVolume u / num 2)) /\
  volume (synth (vowelStep u ToggleAudio)) = uiVolume u / num 2.
Proof.
  intros Hr. destruct u as [ur vx vy gd ql pt vl dr [run gr x y gf qf vol]].
  cbn in Hr. subst run. cbn -[recompute].
  unfold updateVowel, withGraph. cbn -[recompute]. repeat split.
Qed.

End ComponentTheorems.

Section SawtoothTheorems.
Context {T : Type} `{JSNum T}.
Local Open Scope js_scope.

(** The state invariant of the sawtooth component. *)
Lemma sawStep_in_sync (u : @SawUI T) (ev : SawEvent) :
  sawUiIsRunning u = sawIsRunning (sawSynth u) ->
  sawPitch (sawSynth u) = sawUiPitch u ->
  sawVolume (sawSynth u) = sawUiVolume u / num 100 ->
  (sawIsRunning (sawSynth u) = true ->
     sawGraph (sawSynth u) = Some (mkSawGraph (sawUiPitch u) (sawUiVolume u / num 100))) ->
  let u' := sawStep u ev in
  sawUiIsRunning u' = sawIsRunning (sawSynth u') /\
  sawPitch (sawSynth u') = sawUiPitch u' /\
  sawVolume (sawSynth u') = sawUiVolume u' / num 100 /\
  (sawIsRunning (sawSynth u') = true ->
     sawGraph (sawSynth u') = Some (mkSawGraph (sawUiPitch u') (sawUiVolume u' / num 100))).
Proof.
  destruct u as [ur up uv [run gr p v]]; cbn.
  intros Hr Hp Hv Hg. subst ur p v.
  destruct ev; cbn; unfold sawSetPitch, sawSetVolume, sawStart, sawStop;
    destruct run; cbn; repeat split; try discriminate;
    try (rewrite Hg by reflexivity); reflexivity.
Qed.

(** For any sequence of slider moves and button presses, the sawtooth
    component and its core agree: the running flags match, the core stores
    the slider pitch and [volume / 100], and while running the oscillator
    plays exactly the slider pitch at gain [volume / 100].  The start-up
    values agree when the number type computes [0.5 = 50 / 100]. *)
Theorem saw_ui_in_sync (evs : list SawEvent)
  (Hinit : (lit 5 1 : T) = num 50 / num 100) :
  let u := runSawUI initSawUI evs in
  sawUiIsRunning u = sawIsRunning (sawSynth u) /\
  sawPitch (sawSynth u) = sawUiPitch u /\
  sawVolume (sawSynth u) = sawUiVolume u / num 100 /\
  (sawIsRunning (sawSynth u) = true ->
     sawGraph (sawSynth u) = Some (mkSawGraph (sawUiPitch u) (sawUiVolume u / num 100))).
Proof.
  unfold runSawUI.
  assert (H0 : let u := @initSawUI T _ in
    sawUiIsRunning u = sawIsRunning (sawSynth u) /\
    sawPitch (sawSynth u) = sawUiPitch u /\
    sawVolume (sawSynth u) = sawUiVolume u / num 100 /\
    (sawIsRunning (sawSynth u) = true ->
       sawGraph (sawSynth u) = Some (mkSawGraph (sawUiPitch u) (sawUiVolume u / num 100))))
    by (cbn; repeat split; [exact Hinit | discriminate]).
  revert H0. generalize (@initSawUI T _) as u.
  induction evs as [|ev evs IH]; intros u Hu; [exact Hu|].
  cbn [fold_left]. apply IH.
  destruct Hu as (Hr & Hp & Hv & Hg). exact (sawStep_in_sync u ev Hr Hp Hv Hg).
Qed.

(** [SawtoothGeneratorCore]: [setPitch] and [setVolume] commute and a later
    call of either overrides an earlier one; the values given while stopped
    are stored and the next [start()] plays them; [stop()] then [start()]
    resumes the stored pitch and volume. *)
Theorem saw_core_setters (c : @SawCore T) (p p' v v' : T) :
  sawSetPitch p (sawSetVolume v c) = sawSetVolume v (sawSetPitch p c) /\
  sawSetPitch p' (sawSetPitch p c) = sawSetPitch p' c /\
  sawSetVolume v' (sawSetVolume v c) = sawSetVolume v' c /\
  (sawIsRunning c = false ->
     sawGraph (sawStart (sawSetVolume v (sawSetPitch p c))) = Some (mkSawGraph p v)) /\
  sawGraph (sawStart (sawStop c)) =
    if sawIsRunning c then Some (mkSawGraph (sawPitch c) (sawVolume c)) else sawGraph (sawStart c).
Proof.
  destruct c as [run gr p0 v0].
  unfold sawSetPitch, sawSetVolume, sawStart, sawStop.
  destruct run; [destruct gr as [gr|]|]; cbn; repeat split; intros; first [discriminate | reflexivity].
Qed.

End SawtoothTheorems.

Section CoreShapes.
Context {T : Type} `{JSNum T} `{JSRound T}.

Lemma updateVowel_shape (c : @Core T) :
  exists g', updateVowel c = mkCore (isRunning c) g' (vowelX c) (vowelY c)
                                    (genderFactor c) (qualityFactor c) (volume c).
Proof.
  destruct c as [run gr x y gf qf vol]. unfold updateVowel, withGraph.
  destruct run; [destruct gr|]; cbn -[recompute]; eexists; reflexivity.
Qed.

Lemma start_shape (c : @Core T) :
  isRunning c = false ->
  exists g', start c = mkCore true g' (vowelX c) (vowelY c)
                              (genderFactor c) (qualityFactor c) (volume c).
Proof.
  destruct c as [run gr x y gf qf vol]. cbn. intros ->. unfold start.
  cbn -[updateVowel]. apply updateVowel_shape.
Qed.

Lemma stop_shape (c : @Core T) :
  exists g', stop c = mkCore false g' (vowelX c) (vowelY c)
                             (genderFactor c) (qualityFactor c) (volume c).
Proof. destruct c as [run gr x y gf qf vol]. unfold stop. destruct run; eexists; reflexivity. Qed.

Lemma setPitch_shape (f0 : T) (c : @Core T) :
  exists g', setPitch f0 c = mkCore (isRunning c) g' (vowelX c) (vowelY c)
                                    (genderFactor c) (qualityFactor c) (volume c).
Proof.
  destruct c as [run gr x y gf qf vol]. unfold setPitch, withGraph.
  destruct run; [destruct gr|]; eexists; reflexivity.
Qed.

Lemma setVolume_shape (v : T) (c : @Core T) :
  exists g', setVolume v c = mkCore (isRunning c) g' (vowelX c) (vowelY c)
                                    (genderFactor c) (qualityFactor c) v.
Proof.
  destruct c as [run gr x y gf qf vol]. unfold setVolume, withGraph.
  destruct run; [destruct gr|]; eexists; reflexivity.
Qed.

Lemma vowelStep_calls (u : @VowelUI T) (ev : VowelEvent) :
  exists ms, synth (vowelStep u ev) = runCore (synth u) ms.
Proof.
  destruct ev; cbn [vowelStep].
  all: try solve [exists []; reflexivity].
  - eexists [CallSetVowelPosition _ _]; reflexivity.
  - eexists [CallSetVowelPosition _ _]; reflexivity.
  - eexists [CallSetGender _]; reflexivity.
  - eexists [CallSetQuality _]; reflexivity.
  - eexists [CallSetPitch _]; reflexivity.
  - eexists [CallSetVolume _]; reflexivity.
  - eexists [CallSetVowelPosition _ _]; reflexivity.
  - eexists [CallSetVowelPosition _ _]; reflexivity.
  - destruct (uiIsDragging u); [eexists [CallSetVowelPosition _ _]; reflexivity|].
    exists []; reflexivity.
  - destruct (isRunning (synth u)); cbn [negb].
    + exists [CallStop]; reflexivity.
    + exists [CallStart; CallSetVolume (uiVolume u / num 2)%js]; reflexivity.
Qed.

End CoreShapes.

Module UIOnReals.
Import OnReals.
Local Open Scope R_scope.

Lemma Rltb_true (a b : R) : Rltb a b = true <-> a < b.
Proof. unfold Rltb; destruct (Rlt_dec a b); split; intros; try discriminate; auto; lra. Qed.

Lemma Rltb_false (a b : R) : Rltb a b = false <-> b <= a.
Proof. unfold Rltb; destruct (Rlt_dec a b); split; intros; try discriminate; auto; lra. Qed.

Lemma inRange_R (lo v hi : R) : inRange lo v hi = true -> lo <= v <= hi.
Proof.
  unfold inRange. cbn. intros Hb. apply andb_prop in Hb as [H1 H2].
  apply Rleb_true in H1, H2. lra.
Qed.

Lemma positiveGeometry_R (geo : @Geometry R) :
  positiveGeometry geo = true ->
  0 < canvasWidth geo /\ 0 < canvasHeight geo /\ 0 < rectWidth geo /\ 0 < rectHeight geo.
Proof.
  unfold positiveGeometry. cbn.
  intros Hb. repeat (apply andb_prop in Hb as [Hb ?]).
  repeat match goal with Hx : Rltb _ _ = true |- _ => apply Rltb_true in Hx end.
  lra.
Qed.

Lemma clamp_R (x : R) :
  0 <= jsMax 0 (jsMin (num 100) x) <= 100 /\
  (0 <= x <= 100 -> jsMax 0 (jsMin (num 100) x) = x).
Proof.
  unfold jsMin, jsMax. js_R.
  destruct (Rleb 100 x) eqn:E1; [apply Rleb_true in E1 | apply Rleb_false in E1];
    case_Rleb; split; intros; lra.
Qed.

Lemma round_R (x : R) :
  0 <= x <= 100 -> 0 <= jround x <= 100 /\ Rabs (x - jround x) <= / 2.
Proof.
  intros Hx. cbn [jround JSRound_R].
  destruct (base_Int_part (x + / 2)) as [Hlo Hhi].
  set (z := Int_part (x + / 2)) in *.
  assert (Hz0 : (-1 < z)%Z) by (apply lt_IZR; lra).
  assert (Hz1 : (z < 101)%Z) by (apply lt_IZR; lra).
  assert (0 <= IZR z) by (apply IZR_le; lia).
  assert (IZR z <= 100) by (apply IZR_le; lia).
  split; [lra|]. apply Rabs_le. lra.
Qed.

End UIOnReals.

Module UIInvariant.
Import OnReals UIOnReals.
Local Open Scope R_scope.

Lemma consistent_init : vowelUIConsistent (@initVowelUI R _).
Proof.
  unfold vowelUIConsistent. cbn. js_R.
  repeat split; try lra; try (apply Rabs_le; lra).
  apply coreSynced_init.
Qed.

Lemma consistent_position (u : @VowelUI R) (X Y : R) :
  0 <= X <= 100 -> 0 <= Y <= 100 -> vowelUIConsistent u ->
  vowelUIConsistent
    (mkVowelUI (uiIsRunning u) (jround X) (jround Y) (uiGender u) (uiQuality u)
               (uiPitch u) (uiVolume u) (uiIsDragging u)
               (setVowelPosition (X / num 100) (Y / num 100) (synth u))).
Proof.
  intros HX HY Hu.
  assert (Hs : coreSynced (setVowelPosition (X / num 100) (Y / num 100) (synth u)))
    by (apply (coreSynced_call _ (CallSetVowelPosition _ _)), Hu).
  revert Hs. unfold vowelUIConsistent in *.
  destruct u as [ur ux uy ug uq up uv ud s]. cbn [uiIsRunning uiVowelX uiVowelY uiGender
    uiQuality uiPitch uiVolume uiIsDragging synth] in Hu |- *.
  pose proof (round_R X HX) as [RX1 RX2].
  pose proof (round_R Y HY) as [RY1 RY2].
  unfold setVowelPosition.
  destruct (updateVowel_shape (mkCore (isRunning s) (graph s) (X / num 100) (Y / num 100)
             (genderFactor s) (qualityFactor s) (volume s))) as [g' E].
  rewrite E. cbn [isRunning vowelX vowelY genderFactor qualityFactor volume]. intros Hs.
  destruct Hu as (Hr & _ & _ & _ & _ & _ & _ & _ & Hg & Hgf & Hq & Hqf & Hv & Hvf).
  unfold num. cbn [jof_pos jdiv JSNum_R].
  repeat split; try assumption; try lra.
  - replace (X / 100 * 100 - jround X) with (X - jround X) by (field; lra). exact RX2.
  - replace (Y / 100 * 100 - jround Y) with (Y - jround Y) by (field; lra). exact RY2.
Qed.

Lemma consistent_update (u : @VowelUI R) geo cx cy :
  vowelUIConsistent u -> vowelUIConsistent (updateVowelPosition geo cx cy u).
Proof.
  intros Hu. unfold updateVowelPosition.
  apply consistent_position; [apply clamp_R | apply clamp_R | exact Hu].
Qed.

Ltac core_shapes :=
  unfold setVowelPosition, setGender, setQuality;
  repeat match goal with
  | |- context [updateVowel ?c] =>
      let E := fresh "E" in destruct (updateVowel_shape c) as [? E]; rewrite E
  | |- context [setPitch ?f ?c] =>
      let E := fresh "E" in destruct (setPitch_shape f c) as [? E]; rewrite E
  | |- context [setVolume ?v ?c] =>
      let E := fresh "E" in destruct (setVolume_shape v c) as [? E]; rewrite E
  | |- context [stop ?c] =>
      let E := fresh "E" in destruct (stop_shape c) as [? E]; rewrite E
  | Hr : isRunning ?c = false |- context [start ?c] =>
      let E := fresh "E" in destruct (start_shape c Hr) as [? E]; rewrite E
  end;
  cbn [isRunning vowelX vowelY genderFactor qualityFactor volume].

Lemma consistent_setDragging (u : @VowelUI R) (b : bool) :
  vowelUIConsistent u -> vowelUIConsistent (setDragging b u).
Proof. destruct u; exact (fun H => H). Qed.

Lemma consistent_step (u : @VowelUI R) (ev : VowelEvent) :
  validVowelEvent ev = true -> vowelUIConsistent u -> vowelUIConsistent (vowelStep u ev).
Proof.
  intros Hev Hu.
  assert (Hs : coreSynced (synth (vowelStep u ev)))
    by (destruct (vowelStep_calls u ev) as [ms ->]; apply coreSynced_run, Hu).
  destruct ev; cbn [validVowelEvent] in Hev.
  7: apply consistent_update, Hu.
  7: apply consistent_update, consistent_setDragging, Hu.
  7: cbn [vowelStep]; destruct (uiIsDragging u); [apply consistent_update|]; exact Hu.
  7, 8: apply consistent_setDragging, Hu.
  all: revert Hs; unfold vowelUIConsistent in *;
    destruct u as [ur ux uy ug uq up uv ud s];
    cbn [vowelStep uiIsRunning uiVowelX uiVowelY uiGender uiQuality uiPitch uiVolume
         uiIsDragging synth] in Hu |- *;
    destruct Hu as (Hr & _ & Hux & Huy & Hx & Hy & Hax & Hay & Hg & Hgf & Hq & Hqf & Hv & Hvf).
  7: { destruct (isRunning s) eqn:Er; cbn [negb]; core_shapes;
       cbn [uiIsRunning uiVowelX uiVowelY uiGender uiQuality uiPitch uiVolume
            uiIsDragging synth isRunning vowelX vowelY genderFactor qualityFactor volume];
       intros Hs; unfold num; cbn [jof_pos jdiv JSNum_R]; repeat split; try assumption; try lra. }
  all: try apply inRange_R in Hev; core_shapes; intros Hs; unfold num in *;
    cbn [jzero jof_pos jdiv jsub JSNum_R] in *.
  all: repeat split; try assumption; try lra.
  all: apply Rabs_le; lra.
Qed.

Lemma consistent_run (u : @VowelUI R) (evs : list VowelEvent) :
  forallb validVowelEvent evs = true -> vowelUIConsistent u ->
  vowelUIConsistent (runVowelUI u evs).
Proof.
  unfold runVowelUI. revert u. induction evs as [|ev evs IH]; intros u Hv Hu; [exact Hu|].
  cbn [forallb] in Hv. apply andb_prop in Hv as [Hv1 Hv2].
  cbn [fold_left]. apply IH; [exact Hv2|]. apply consistent_step; assumption.
Qed.

End UIInvariant.

Module UITheorems.
Import OnReals UIOnReals UIInvariant.
Local Open Scope R_scope.

Lemma recompute_positive (c : @Core R) :
  0 <= vowelX c <= 1 -> 0 <= vowelY c <= 1 ->
  0 <= genderFactor c <= 2 -> -1 <= qualityFactor c <= 1 ->
  List.length (recompute c) = 3%nat /\
  Forall (fun '(f, Q) => 0 < f /\ 0 < Q) (recompute c).
Proof.
  intros Hx Hy Hg Hq.
  pose proof (genderScale_ge_1 _ Hg) as Hs.
  pose proof (bandwidthMult_ge _ Hq) as Hm.
  destruct (interpolateFormants_pos (vowelX c) (vowelY c))
    as (f1 & f2 & f3 & Hi & P1 & P2 & P3).
  unfold recompute. rewrite Hi. unfold scaleFormantsForGender.
  cbn [map seq nth]. rewrite !calculateBandwidth_R. cbn [List.length].
  split; [reflexivity|]. cbn [jmul jdiv JSNum_R].
  repeat (apply Forall_cons;
          [split; [apply Rmult_lt_0_compat; lra | apply Q_pos; [apply Rmult_lt_0_compat|]; lra] |]).
  apply Forall_nil.
Qed.

Lemma coordX (l w c p : R) :
  0 < w -> 0 < c -> (l + p * c * w / c - l) * (c / w) / c * 100 = p * 100.
Proof. intros Hw Hc. field. lra. Qed.

Lemma coordY (t h c p : R) :
  0 < h -> 0 < c -> (1 - (t + (1 - p) * c * h / c - t) * (c / h) / c) * 100 = p * 100.
Proof. intros Hh Hc. field. lra. Qed.

(** A click on the point where [drawVowelChart] draws the chart position
    [(px, py)] of [[0, 1]^2], on a canvas of any positive size shown in a
    box of any positive size, sets the core's position to exactly
    [(px, py)] and the displayed position to [Math.round(100 px)] and
    [Math.round(100 py)]: the click handler inverts the drawing. *)
Theorem click_at_drawn_point (geo : @Geometry R) (px py : R) (u : @VowelUI R)
  (Hgeo : 0 < canvasWidth geo /\ 0 < canvasHeight geo /\ 0 < rectWidth geo /\ 0 < rectHeight geo)
  (Hp : 0 <= px <= 1 /\ 0 <= py <= 1) :
  let clientX := rectLeft geo + fst (chartPoint geo px py) * rectWidth geo / canvasWidth geo in
  let clientY := rectTop geo + snd (chartPoint geo px py) * rectHeight geo / canvasHeight geo in
  let u' := vowelStep u (CanvasClick geo clientX clientY) in
  vowelX (synth u') = px /\ vowelY (synth u') = py /\
  uiVowelX u' = jround (px * 100) /\ uiVowelY u' = jround (py * 100).
Proof.
  intros cx cy u'. unfold u', cx, cy. cbn [vowelStep]. unfold updateVowelPosition, chartPoint.
  cbn [fst snd]. unfold setVowelPosition, num, lit. cbn [jzero jof_pos jdiv jsub jmul jadd JSNum_R].
  destruct Hgeo as (Hcw & Hch & Hrw & Hrh). destruct Hp as [Hpx Hpy].
  rewrite (coordX (rectLeft geo) (rectWidth geo) (canvasWidth geo) px Hrw Hcw).
  rewrite (coordY (rectTop geo) (rectHeight geo) (canvasHeight geo) py Hrh Hch).
  pose proof (clamp_R (px * 100)) as [_ CX]. pose proof (clamp_R (py * 100)) as [_ CY].
  unfold num in CX, CY. cbn [jof_pos JSNum_R] in CX, CY.
  rewrite CX, CY by lra.
  match goal with |- context [updateVowel ?c] =>
    let E := fresh "E" in destruct (updateVowel_shape c) as [g E]; rewrite E end.
  cbn. repeat split; field.
Qed.

(** For any sequence of inputs the page can deliver, starting from the
    first render, the vowel component's React state and its core agree:
    the running flags match; the displayed position lies in [[0, 100]]
    and is within 0.5 of 100 times the core's position, which lies in
    [[0, 1]]; the core's gender factor is [gender / 100] in [[0, 2]], its
    quality factor [(quality - 50) / 50] in [[-1, 1]], its volume
    [volume / 2]; and while running the master gain is [volume / 2]. *)
Theorem vowel_ui_state_consistent (evs : list (@VowelEvent R)) :
  forallb validVowelEvent evs = true ->
  let u := runVowelUI (@initVowelUI R _) evs in
  uiIsRunning u = isRunning (synth u) /\
  (0 <= uiVowelX u <= 100) /\ (0 <= uiVowelY u <= 100) /\
  (0 <= vowelX (synth u) <= 1) /\ (0 <= vowelY (synth u) <= 1) /\
  (Rabs (vowelX (synth u) * 100 - uiVowelX u) <= / 2) /\
  (Rabs (vowelY (synth u) * 100 - uiVowelY u) <= / 2) /\
  genderFactor (synth u) = uiGender u / 100 /\ (0 <= genderFactor (synth u) <= 2) /\
  qualityFactor (synth u) = (uiQuality u - 50) / 50 /\ (-1 <= qualityFactor (synth u) <= 1) /\
  volume (synth u) = uiVolume u / 2 /\
  (isRunning (synth u) = true ->
     exists g, graph (synth u) = Some g /\ masterGainValue g = uiVolume u / 2).
Proof.
  intros Hv u.
  destruct (consistent_run initVowelUI evs Hv consistent_init)
    as (Hr & Hs & Hux & Huy & Hx & Hy & Hax & Hay & Hg & Hgf & Hq & Hqf & Hvol & Hvf).
  fold u in Hr, Hs, Hux, Huy, Hx, Hy, Hax, Hay, Hg, Hgf, Hq, Hqf, Hvol, Hvf.
  repeat split; try assumption; try lra.
  intros Hrun. destruct (Hs Hrun) as (g & Hgr & _ & Hgain).
  exists g. split; [exact Hgr|]. rewrite Hgain. exact Hvf.
Qed.

(** For any sequence of inputs the page can deliver, while the vowel
    synthesizer runs its three band-pass filters are set to the targets
    of its current controls, and every one of them has a positive center
    frequency and a positive Q. *)
Theorem vowel_ui_filters_positive (evs : list (@VowelEvent R)) :
  forallb validVowelEvent evs = true ->
  isRunning (synth (runVowelUI (@initVowelUI R _) evs)) = true ->
  exists g, graph (synth (runVowelUI initVowelUI evs)) = Some g /\
    filterParams g = recompute (synth (runVowelUI initVowelUI evs)) /\
    List.length (filterParams g) = 3%nat /\
    Forall (fun '(f, Q) => 0 < f /\ 0 < Q) (filterParams g).
Proof.
  intros Hv Hrun.
  destruct (consistent_run initVowelUI evs Hv consistent_init)
    as (_ & Hs & _ & _ & Hx & Hy & _ & _ & Hg & Hgf & Hq & Hqf & _ & _).
  destruct (Hs Hrun) as (g & Hgr & Hf & _).
  exists g. split; [exact Hgr|]. split; [exact Hf|]. rewrite Hf.
  apply recompute_positive; [exact Hx | exact Hy | rewrite Hgf; lra | rewrite Hqf; lra].
Qed.

End UITheorems.

Module LabelAndDrawing.
Import OnReals UIOnReals.
Local Open Scope R_scope.

(** [getQualityLabel] on exact numbers: "Tense" exactly below 35,
    "Breathy" exactly above 65, "Normal" on [[35, 65]], the two bounds
    included. *)
Theorem quality_label_thresholds (v : R) :
  (getQualityLabel v = "Tense"%string <-> v < 35) /\
  (getQualityLabel v = "Breathy"%string <-> 65 < v) /\
  (getQualityLabel v = "Normal"%string <-> 35 <= v <= 65).
Proof.
  unfold getQualityLabel. js_R.
  destruct (Rltb ((v - 50) / 50) (0 - 3 / 10)) eqn:E1;
    [apply Rltb_true in E1 | apply Rltb_false in E1];
  [|destruct (Rltb (3 / 10) ((v - 50) / 50)) eqn:E2;
    [apply Rltb_true in E2 | apply Rltb_false in E2]].
  all: split; [|split]; split; intros Hc; try discriminate Hc; try reflexivity; lra.
Qed.


(** [drawWaveform] maps a sample [b] to the row [height / 2 + (b - 128) /
    128 * height] of a canvas of positive height, clamped to the canvas:
    samples up to 64 are drawn on the top row 0, samples from 192 on the
    bottom row [height], the others unclamped, and every row lies in
    [[0, height]]. *)
Theorem waveform_row_clamped (h b : R) :
  0 < h ->
  (b <= 64 -> waveformY h b = 0) /\
  (192 <= b -> waveformY h b = h) /\
  (64 <= b <= 192 -> waveformY h b = h / 2 + (b - 128) / 128 * h) /\
  0 <= waveformY h b <= h.
Proof.
  intros Hh. unfold waveformY, jsMin, jsMax. js_R.
  replace (h / 2 + (b - 128) / 128 * h / 2 * 2) with (h / 2 + (b - 128) / 128 * h) by field.
  destruct (Rleb h (h / 2 + (b - 128) / 128 * h)) eqn:E1;
    [apply Rleb_true in E1 | apply Rleb_false in E1]; case_Rleb;
    repeat split; intros; try lra; nra.
Qed.

End LabelAndDrawing.

Module Interpolation.
Import OnReals.
Local Open Scope R_scope.

Lemma vowels_formants_range (nm : string) (d : @VowelData R) :
  In (nm, d) VOWELS ->
  exists f1 f2 f3, formants d = [f1; f2; f3] /\
    270 <= f1 <= 860 /\ 840 <= f2 <= 2290 /\ 1690 <= f3 <= 3010.
Proof.
  intros Hin. simpl in Hin.
  repeat (destruct Hin as [Hin | Hin];
          [injection Hin as _ <-; do 3 eexists; split; [reflexivity|]; js_R; lra|]).
  contradiction.
Qed.

Lemma blend3_range (lo hi f1 f2 f3 w1 w2 w3 : R) :
  lo <= f1 <= hi -> lo <= f2 <= hi -> lo <= f3 <= hi -> 0 < w1 -> 0 < w2 -> 0 < w3 ->
  lo <= 0 + f1 * (w1 / (0 + w1 + w2 + w3)) + f2 * (w2 / (0 + w1 + w2 + w3))
          + f3 * (w3 / (0 + w1 + w2 + w3)) <= hi.
Proof.
  intros H1 H2 H3 W1 W2 W3.
  set (W := 0 + w1 + w2 + w3).
  assert (HW : 0 < W) by (unfold W; lra).
  assert (A1 : 0 < w1 / W) by (apply Rdiv_lt_0_compat; lra).
  assert (A2 : 0 < w2 / W) by (apply Rdiv_lt_0_compat; lra).
  assert (A3 : 0 < w3 / W) by (apply Rdiv_lt_0_compat; lra).
  assert (S : w1 / W + w2 / W + w3 / W = 1) by (unfold W; field; lra).
  set (a1 := w1 / W) in *. set (a2 := w2 / W) in *. set (a3 := w3 / W) in *.
  split; nra.
Qed.

(** [interpolateFormants] blends its three nearest anchors with positive
    weights that sum to 1: at every point of the plane each of its three
    formants stays within the range that formant has over the 11 anchors
    (F1 in [[270, 860]], F2 in [[840, 2290]], F3 in [[1690, 3010]]). *)
Theorem interpolate_within_anchor_range (x y : R) :
  Forall (fun w => 0 < w) (normalizedWeightsOf (weightsOf (nearestOf x y))) /\
  totalWeightOf (normalizedWeightsOf (weightsOf (nearestOf x y))) = 1 /\
  exists f1 f2 f3, interpolateFormants x y = [f1; f2; f3] /\
    270 <= f1 <= 860 /\ 840 <= f2 <= 2290 /\ 1690 <= f3 <= 3010.
Proof.
  destruct (nearestOf_shape x y) as (a & b & c & Hn & Ha & Hb & Hc).
  pose proof (weight_pos x y a Ha) as Wa.
  pose proof (weight_pos x y b Hb) as Wb.
  pose proof (weight_pos x y c Hc) as Wc.
  apply in_distances in Ha as [Ha _], Hb as [Hb _], Hc as [Hc _].
  destruct (vowels_formants_range _ _ Ha) as (a1 & a2 & a3 & Fa & Ra1 & Ra2 & Ra3).
  destruct (vowels_formants_range _ _ Hb) as (b1 & b2 & b3 & Fb & Rb1 & Rb2 & Rb3).
  destruct (vowels_formants_range _ _ Hc) as (c1 & c2 & c3 & Fc & Rc1 & Rc2 & Rc3).
  unfold interpolateFormants. rewrite Hn.
  unfold blend, normalizedWeightsOf, totalWeightOf, weightsOf.
  cbn [map seq fold_left nth].
  rewrite Fa, Fb, Fc. clear Hn Ha Hb Hc Fa Fb Fc. js_R.
  set (wa := 1 / (dist a + 1 / 100)) in *.
  set (wb := 1 / (dist b + 1 / 100)) in *.
  set (wc := 1 / (dist c + 1 / 100)) in *.
  split; [|split].
  - repeat constructor; apply Rdiv_lt_0_compat; lra.
  - field. lra.
  - do 3 eexists. split; [reflexivity|].
    split; [|split]; apply blend3_range; lra.
Qed.

End Interpolation.

(** * Instances of the further properties at concrete inputs *)

Module ExtraWitnesses.
Import OnReals UIOnReals UITheorems.
Local Open Scope R_scope.

Ltac valid_events :=
  cbn; unfold inRange, positiveGeometry, chartGeometry, num, lit; cbn;
  repeat first [rewrite (proj2 (Rleb_true _ _)) by lra
               |rewrite (proj2 (Rltb_true _ _)) by lra];
  reflexivity.

(** The core after [start()], on binary64. *)
Lemma core_graph_follows_controls_witness :
  isRunning (runCore (@initCore float _) [CallStart]) = true /\
  exists g, graph (runCore initCore [CallStart]) = Some g /\
            filterParams g = recompute (runCore initCore [CallStart]) /\
            masterGainValue g = volume (runCore initCore [CallStart]).
Proof.
  split; [reflexivity|].
  apply (core_graph_follows_controls [CallStart]). reflexivity.
Defined.

(** A restart after a move to (0.2, 0.8) and a volume change, on binary64. *)
Lemma core_restart_resumes_witness :
  let ms := [CallStart; CallSetVowelPosition (lit 2 1) (lit 8 1); CallSetVolume (num 10)] in
  isRunning (runCore (@initCore float _) ms) = true /\
  exists g, graph (runCore initCore ms) = Some g /\
    graph (start (stop (runCore initCore ms))) =
      Some (mkAudioGraph (num 120) (filterParams g) (masterGainValue g)) /\
    isRunning (start (stop (runCore initCore ms))) = true /\
    (vowelX (start (stop (runCore initCore ms))),
     vowelY (start (stop (runCore initCore ms))),
     genderFactor (start (stop (runCore initCore ms))),
     qualityFactor (start (stop (runCore initCore ms))),
     volume (start (stop (runCore initCore ms)))) =
    (vowelX (runCore initCore ms), vowelY (runCore initCore ms),
     genderFactor (runCore initCore ms), qualityFactor (runCore initCore ms),
     volume (runCore initCore ms)).
Proof.
  intros ms. split; [reflexivity|].
  apply (core_restart_resumes ms). reflexivity.
Defined.

(** A drag from (160, 120) over (40, 70) released by leaving the canvas. *)
Lemma drag_ends_like_click_witness :
  runVowelUI (@initVowelUI R _)
    (CanvasMouseDown chartGeometry 160 120
       :: map moveEvent [(chartGeometry, 40, 70)] ++
       CanvasMouseLeave :: map moveEvent [(chartGeometry, 200, 200)]) =
  vowelStep initVowelUI (clickEvent (chartGeometry, 40, 70)).
Proof.
  exact (drag_ends_like_click initVowelUI (chartGeometry, 160, 120)
           [(chartGeometry, 40, 70)] [(chartGeometry, 200, 200)] CanvasMouseLeave
           eq_refl (or_intror eq_refl)).
Defined.

(** Pitch slider at 200 before the first start: the oscillator starts at 120. *)
Lemma toggle_start_ignores_pitch_slider_witness :
  let u := vowelStep (@initVowelUI R _) (PitchChange 200) in
  uiPitch u = 200 /\
  graph (synth (vowelStep u ToggleAudio)) =
    Some (mkAudioGraph (num 120) (recompute (synth u)) (uiVolume u / num 2)).
Proof.
  intros u. split; [reflexivity|].
  exact (proj1 (proj2 (proj2 (toggle_start_ignores_pitch_slider u eq_refl)))).
Defined.

(** The sawtooth component on binary64, after a pitch change and a start. *)
Lemma saw_ui_in_sync_witness :
  let u := runSawUI (@initSawUI float _) [SawPitchChange (num 200); SawToggleAudio] in
  sawIsRunning (sawSynth u) = true /\
  sawGraph (sawSynth u) = Some (mkSawGraph (sawUiPitch u) (sawUiVolume u / num 100)%js).
Proof.
  intros u.
  destruct (@saw_ui_in_sync float JSNum_float [SawPitchChange (num 200); SawToggleAudio]
              ltac:(vm_compute; reflexivity)) as (_ & _ & _ & Hg).
  split; [reflexivity|]. apply Hg. reflexivity.
Defined.

(** The session [sampleEvents]. *)
Lemma vowel_ui_state_consistent_witness :
  let u := runVowelUI (@initVowelUI R _) sampleEvents in
  genderFactor (synth u) = uiGender u / 100 /\ volume (synth u) = uiVolume u / 2.
Proof.
  intros u.
  destruct (vowel_ui_state_consistent sampleEvents ltac:(valid_events))
    as (_ & _ & _ & _ & _ & _ & _ & Hg & _ & _ & _ & Hv & _).
  split; [exact Hg | exact Hv].
Defined.

(** The same session, running at its end. *)
Lemma vowel_ui_filters_positive_witness :
  exists g, graph (synth (runVowelUI (@initVowelUI R _) sampleEvents)) = Some g /\
    Forall (fun '(f, Q) => 0 < f /\ 0 < Q) (filterParams g).
Proof.
  destruct (vowel_ui_filters_positive sampleEvents ltac:(valid_events) eq_refl)
    as (g & Hg & _ & _ & Hp).
  exists g. split; [exact Hg | exact Hp].
Defined.

(** The chart point (0.3, 0.7) on a 600 x 400 canvas shown at 300 x 200. *)
Lemma click_at_drawn_point_witness :
  vowelX (synth (vowelStep (@initVowelUI R _)
    (CanvasClick chartGeometry
       (rectLeft chartGeometry + fst (chartPoint chartGeometry (3 / 10) (7 / 10))
                                 * rectWidth chartGeometry / canvasWidth chartGeometry)
       (rectTop chartGeometry + snd (chartPoint chartGeometry (3 / 10) (7 / 10))
                                * rectHeight chartGeometry / canvasHeight chartGeometry))))
  = 3 / 10.
Proof.
  exact (proj1 (click_at_drawn_point chartGeometry (3 / 10) (7 / 10) initVowelUI
                  ltac:(cbn; lra) ltac:(lra))).
Defined.


(** The waveform canvas of height 120, at the sample 200. *)
Lemma waveform_row_clamped_witness : @waveformY R _ 120 200 = 120.
Proof. exact (proj1 (proj2 (LabelAndDrawing.waveform_row_clamped 120 200 ltac:(lra))) ltac:(lra)). Defined.

End ExtraWitnesses.
